(** * The data-access and API layer of [main.py]

    A shallow embedding of the three route handlers of [main.py]
    ([create_data_entry], [read_data_entries], [delete_data_entry]) together
    with the parts of their surroundings that decide what they answer:

    - the ORM class [SimpleData] and the pydantic models [DataItemCreate]
      and [DataItem];
    - the SQLAlchemy session the handlers drive ([add], [commit],
      [refresh], [rollback], [delete], the two queries), as a state and
      exception monad over the table [simple_data], its id sequence and the
      Python objects of the request;
    - FastAPI's wrapping of a handler: the [get_db] dependency, the
      [response_model] validation and the mapping of exceptions to HTTP
      statuses.

    The store is PostgreSQL (the URL of [main.py] is [postgresql://...]).
    What the store does is not in [main.py]; it is written out here where a
    handler's answer depends on it, each time with the SQL rule that is
    modelled. Requests are served one at a time. The environment of a
    request supplies the reading of the store's clock and may make the
    commit of the request fail, as the [except] branches of the handlers
    expect; a read that the store accepts returns its rows. *)

From Stdlib Require Import ZArith List String Ascii Bool Lia.
From Stdlib Require Import Sorting.Sorted Sorting.Permutation Sorting.Mergesort.
From Stdlib Require Import Structures.Orders Classes.RelationClasses.
From Stdlib Require Import Numbers.DecimalString.
Import ListNotations.
Local Open Scope string_scope.
Local Open Scope list_scope.
Local Open Scope Z_scope.

(** ** Data model *)

(** [DateTime(timezone=True)]: an instant, counted in microseconds. *)
Definition datetime := Z.

(** The ORM class. An attribute of a Python object may be [None], and the
    columns [content] and [created_at] are declared without
    [nullable=False]: every field is optional at this level. That stored
    rows have an id and a content is a property of the program, proved
    below, not of the type. *)
Module SimpleData.
Record t := mk {
  id : option Z;
  content : option string;
  created_at : option datetime
}.
End SimpleData.

(** [class DataItemCreate(BaseModel): content: str] *)
Module DataItemCreate.
Record t := mk { content : string }.
End DataItemCreate.

(** [class DataItem(BaseModel)], with [from_attributes = True]. *)
Module DataItem.
Record t := mk {
  id : Z;
  content : string;
  created_at : datetime
}.
End DataItem.

(** pydantic's validation of an ORM object against [DataItem]: each
    attribute must be present. *)
Definition from_attributes (o : SimpleData.t) : option DataItem.t :=
  match SimpleData.id o, SimpleData.content o, SimpleData.created_at o with
  | Some i, Some c, Some t => Some (DataItem.mk i c t)
  | _, _, _ => None
  end.

Fixpoint validate_list (os : list SimpleData.t) : option (list DataItem.t) :=
  match os with
  | [] => Some []
  | o :: rest =>
      match from_attributes o, validate_list rest with
      | Some d, Some ds => Some (d :: ds)
      | _, _ => None
      end
  end.

(** The row a validated item comes from. *)
Definition to_row (d : DataItem.t) : SimpleData.t :=
  SimpleData.mk (Some (DataItem.id d)) (Some (DataItem.content d))
                (Some (DataItem.created_at d)).

(** ** The store *)

Definition INT4_MAX : Z := 2147483647.
Definition INT8_MAX : Z := 9223372036854775807.

(** What the environment does to the transaction of a request: nothing, or
    the first statement of the flush is refused, or the statements run and
    the final COMMIT is refused. [e] is the driver's error text. *)
Inductive Fault :=
| NoFault
| StatementFault (e : string)
| CommitFault (e : string).

(** The environment of one request: the reading of the store's clock that
    [func.now()] returns in its transaction, and the fault, if any. *)
Record Env := mkEnv { now : datetime; fault : Fault }.

(** What a request did to its session, in order. *)
Inductive Event :=
| Query
| QueryRaised
| Commit
| CommitRaised
| Refresh
| RefreshRaised
| Rollback
| Close.

(** The state that outlives a request: the table, the last value handed
    out by the sequence behind the SERIAL primary key, and what was
    printed. *)
Record Server := mkServer {
  simple_data : list SimpleData.t;
  simple_data_id_seq : Z;
  stdout : list string
}.

(** [Base.metadata.create_all] on a fresh database. *)
Definition create_all : Server := mkServer [] 0 [].

(** The state of a request: the server, the Python objects the request
    holds (an object is named by its index), the objects pending in the
    session, and the events so far. *)
Record World := mkWorld {
  srv : Server;
  heap : list SimpleData.t;
  new : list nat;
  deleted : list nat;
  events : list Event
}.

(** [SessionLocal()] *)
Definition SessionLocal (s : Server) : World := mkWorld s [] [] [] [].

Definition with_srv (s : Server) (w : World) : World :=
  mkWorld s (heap w) (new w) (deleted w) (events w).
Definition with_heap (h : list SimpleData.t) (w : World) : World :=
  mkWorld (srv w) h (new w) (deleted w) (events w).
Definition with_pending (n d : list nat) (w : World) : World :=
  mkWorld (srv w) (heap w) n d (events w).
Definition log_event (e : Event) (w : World) : World :=
  mkWorld (srv w) (heap w) (new w) (deleted w) (events w ++ [e]).

(** ** Exceptions and the handler monad *)

Inductive exn :=
| HTTPException (status_code : Z) (detail : string)
| SQLAlchemyError (msg : string).

Definition str_Z (z : Z) : string := NilZero.string_of_int (Z.to_int z).

(** [str(e)] *)
Definition str_exn (e : exn) : string :=
  match e with
  | HTTPException s d => (str_Z s ++ ": " ++ d)%string
  | SQLAlchemyError m => m
  end.

Definition M (A : Type) : Type := Env -> World -> (exn + A) * World.

Definition ret {A} (a : A) : M A := fun _ w => (inr a, w).

Definition bind {A B} (m : M A) (k : A -> M B) : M B :=
  fun env w =>
    match m env w with
    | (inr a, w') => k a env w'
    | (inl e, w') => (inl e, w')
    end.

Definition raise {A} (e : exn) : M A := fun _ w => (inl e, w).

(** [try: body  except Exception as e: handler e] *)
Definition try_except {A} (body : M A) (handler : exn -> M A) : M A :=
  fun env w =>
    match body env w with
    | (inr a, w') => (inr a, w')
    | (inl e, w') => handler e env w'
    end.

Definition modify (f : World -> World) : M unit := fun _ w => (inr tt, f w).

Notation "x <- c1 ;; c2" := (bind c1 (fun x => c2))
  (at level 61, c1 at next level, right associativity).
Notation "c1 ;; c2" := (bind c1 (fun _ => c2))
  (at level 61, right associativity).

(** [print(s)] *)
Definition print (s : string) : M unit :=
  modify (fun w =>
    with_srv (mkServer (simple_data (srv w)) (simple_data_id_seq (srv w))
                       (stdout (srv w) ++ [s])) w).

(** ** SQL on the table [simple_data] *)

Definition pk_eqb (k : Z) (r : SimpleData.t) : bool :=
  match SimpleData.id r with
  | Some i => i =? k
  | None => false
  end.

(** [SELECT ... WHERE id = k LIMIT 1] *)
Definition select_by_id (k : Z) (rows : list SimpleData.t) : option SimpleData.t :=
  find (pk_eqb k) rows.

(** [DELETE FROM simple_data WHERE id = k] *)
Definition delete_by_id (k : Z) (rows : list SimpleData.t) : list SimpleData.t :=
  filter (fun r => negb (pk_eqb k r)) rows.

(** [ORDER BY created_at DESC]: the later instant first; PostgreSQL puts
    NULL first in a descending order. The statement names no second key:
    among rows of one created_at the store is free, statement by
    statement. *)
Module CreatedAtDesc <: TotalLeBool.
Definition t := SimpleData.t.
Definition leb (a b : t) : bool :=
  match SimpleData.created_at a, SimpleData.created_at b with
  | None, _ => true
  | Some _, None => false
  | Some x, Some y => y <=? x
  end.
Lemma leb_total : forall a b, leb a b = true \/ leb b a = true.
Proof.
  intros a b. unfold leb.
  destruct (SimpleData.created_at a), (SimpleData.created_at b); auto.
  destruct (Z.leb_spec d0 d); [left; reflexivity | right; apply Z.leb_le; lia].
Qed.
End CreatedAtDesc.

Module OrderBy := Sort CreatedAtDesc.

(** One descending arrangement of the rows. Where rows share a created_at
    the store may answer another one; what is stated of a listing below
    holds of every descending arrangement, or is stated for rows of
    distinct created_at, where there is only one. *)
Definition order_by_created_at_desc (rows : list SimpleData.t) : list SimpleData.t :=
  OrderBy.sort rows.

(** [OFFSET offset LIMIT count], the way the executor's Limit node walks
    its input: it discards rows while the offset lasts, then passes rows on
    while the count lasts. *)
Fixpoint fetch (offset count : Z) (rows : list SimpleData.t) : list SimpleData.t :=
  match rows with
  | [] => []
  | r :: rest =>
      if 0 <? offset then fetch (offset - 1) count rest
      else if 0 <? count then r :: fetch 0 (count - 1) rest
      else []
  end.

(** The arguments of OFFSET and LIMIT are bigint, and the store refuses a
    negative one ("OFFSET must not be negative", "LIMIT must not be
    negative") as it refuses one beyond bigint ("bigint out of range"). *)
Definition check_offset_limit (offset count : Z) : option string :=
  if (INT8_MAX <? offset) || (INT8_MAX <? count) then Some "bigint out of range"
  else if offset <? 0 then Some "OFFSET must not be negative"
  else if count <? 0 then Some "LIMIT must not be negative"
  else None.

(** The driver refuses a string with a NUL character before it sends the
    statement. *)
Definition has_nul (s : string) : bool :=
  existsb (fun c => Ascii.eqb c Ascii.zero) (list_ascii_of_string s).

(** [INSERT INTO simple_data (content) VALUES (...) RETURNING id] for the
    object [o], on the rows and the sequence of the open transaction. An
    object without id takes the next value of the sequence, a row without
    [created_at] takes [server_default=func.now()]. The answer is the new
    row, the rows and the sequence after it, or the error text and the
    sequence (a value taken from a sequence is not given back). The error
    texts name the refusal; the [str(e)] of the exception that carries one
    is longer, and nothing below depends on its wording. *)
Definition insert (clock : datetime) (o : SimpleData.t)
    (rows : list SimpleData.t) (seq : Z)
  : (string * Z) + (SimpleData.t * list SimpleData.t * Z) :=
  if match SimpleData.content o with Some c => has_nul c | None => false end
  then inl ("A string literal cannot contain NUL (0x00) characters.", seq)
  else
    match SimpleData.id o with
    | None =>
        if INT4_MAX <=? seq
        then inl ("nextval: reached maximum value of sequence", seq)
        else
          let pk := seq + 1 in
          match select_by_id pk rows with
          | Some _ => inl ("duplicate key value violates unique constraint", pk)
          | None =>
              let row := SimpleData.mk (Some pk) (SimpleData.content o)
                           (Some (match SimpleData.created_at o with
                                  | Some t => t
                                  | None => clock
                                  end)) in
              inr (row, rows ++ [row], pk)
          end
    | Some pk =>
        if (pk <? - INT4_MAX - 1) || (INT4_MAX <? pk)
        then inl ("integer out of range", seq)
        else
          match select_by_id pk rows with
          | Some _ => inl ("duplicate key value violates unique constraint", seq)
          | None =>
              let row := SimpleData.mk (Some pk) (SimpleData.content o)
                           (Some (match SimpleData.created_at o with
                                  | Some t => t
                                  | None => clock
                                  end)) in
              inr (row, rows ++ [row], seq)
          end
    end.

(** ** The session *)

Fixpoint set_nth {A} (n : nat) (x : A) (l : list A) : list A :=
  match l, n with
  | [], _ => []
  | _ :: t, O => x :: t
  | h :: t, S n' => h :: set_nth n' x t
  end.

(** The flush of the pending new objects, in the order of [db.add]: each
    is inserted and receives its primary key. *)
Fixpoint flush_new (clock : datetime) (refs : list nat) (h : list SimpleData.t)
    (rows : list SimpleData.t) (seq : Z)
  : (string * Z) + (list SimpleData.t * list SimpleData.t * Z) :=
  match refs with
  | [] => inr (h, rows, seq)
  | r :: rest =>
      match nth_error h r with
      | None => flush_new clock rest h rows seq
      | Some o =>
          match insert clock o rows seq with
          | inl err => inl err
          | inr (row, rows', seq') =>
              let o' := SimpleData.mk (SimpleData.id row) (SimpleData.content o)
                          (SimpleData.created_at o) in
              flush_new clock rest (set_nth r o' h) rows' seq'
          end
      end
  end.

(** The flush of the objects marked by [db.delete]. *)
Fixpoint flush_deleted (refs : list nat) (h : list SimpleData.t)
    (rows : list SimpleData.t) : list SimpleData.t :=
  match refs with
  | [] => rows
  | r :: rest =>
      match nth_error h r with
      | Some o =>
          match SimpleData.id o with
          | Some pk => flush_deleted rest h (delete_by_id pk rows)
          | None => flush_deleted rest h rows
          end
      | None => flush_deleted rest h rows
      end
  end.

Definition with_seq (seq : Z) (w : World) : World :=
  with_srv (mkServer (simple_data (srv w)) seq (stdout (srv w))) w.

(** [SimpleData(content=c)]: a new Python object, not yet in the session. *)
Definition SimpleData_init (c : string) : M nat :=
  fun _ w =>
    (inr (List.length (heap w)),
     with_heap (heap w ++ [SimpleData.mk None (Some c) None]) w).

(** [db.add(o)] *)
Definition db_add (o : nat) : M unit :=
  modify (fun w => with_pending (new w ++ [o]) (deleted w) w).

(** [db.delete(o)] *)
Definition db_delete (o : nat) : M unit :=
  modify (fun w => with_pending (new w) (deleted w ++ [o]) w).

(** [db.commit()]: flush, then COMMIT. The table changes only when the
    COMMIT goes through; the sequence keeps what the flush took from it. *)
Definition db_commit : M unit :=
  fun env w =>
    match fault env with
    | StatementFault e => (inl (SQLAlchemyError e), log_event CommitRaised w)
    | f =>
        match flush_new (now env) (new w) (heap w)
                (simple_data (srv w)) (simple_data_id_seq (srv w)) with
        | inl (e, seq') =>
            (inl (SQLAlchemyError e), log_event CommitRaised (with_seq seq' w))
        | inr (h', rows', seq') =>
            match f with
            | CommitFault e =>
                (inl (SQLAlchemyError e), log_event CommitRaised (with_seq seq' w))
            | _ =>
                let rows'' := flush_deleted (deleted w) h' rows' in
                (inr tt,
                 log_event Commit
                   (mkWorld (mkServer rows'' seq' (stdout (srv w)))
                            h' [] [] (events w)))
            end
        end
    end.

(** [db.rollback()] *)
Definition db_rollback : M unit :=
  modify (fun w => log_event Rollback (with_pending [] [] w)).

(** [db.refresh(o)]: the attributes of [o] are read again from its row. *)
Definition db_refresh (o : nat) : M unit :=
  fun _ w =>
    match nth_error (heap w) o with
    | Some obj =>
        match SimpleData.id obj with
        | Some pk =>
            match select_by_id pk (simple_data (srv w)) with
            | Some row => (inr tt, log_event Refresh (with_heap (set_nth o row (heap w)) w))
            | None =>
                (inl (SQLAlchemyError "Could not refresh instance"),
                 log_event RefreshRaised w)
            end
        | None =>
            (inl (SQLAlchemyError "Instance is not persistent within this Session"),
             log_event RefreshRaised w)
        end
    | None =>
        (inl (SQLAlchemyError "Instance is not persistent within this Session"),
         log_event RefreshRaised w)
    end.

(** [db.close()] *)
Definition db_close (w : World) : World :=
  log_event Close (with_pending [] [] w).

(** [db.query(SimpleData).filter(SimpleData.id == k).first()] *)
Definition query_filter_id_first (k : Z) : M (option nat) :=
  fun _ w =>
    match select_by_id k (simple_data (srv w)) with
    | Some row =>
        (inr (Some (List.length (heap w))), log_event Query (with_heap (heap w ++ [row]) w))
    | None => (inr None, log_event Query w)
    end.

(** [db.query(SimpleData).order_by(SimpleData.created_at.desc())
       .offset(skip).limit(limit).all()]: the two numbers reach the
    statement as they are. *)
Definition query_order_by_offset_limit_all (skip limit : Z) : M (list nat) :=
  fun _ w =>
    match check_offset_limit skip limit with
    | Some e => (inl (SQLAlchemyError e), log_event QueryRaised w)
    | None =>
        let rows := fetch skip limit (order_by_created_at_desc (simple_data (srv w))) in
        (inr (seq (List.length (heap w)) (List.length rows)),
         log_event Query (with_heap (heap w ++ rows) w))
    end.

(** ** The route handlers *)

(** What a handler returns: an ORM object, a list of them, or the dict
    [{"message": ...}]. *)
Inductive pyval :=
| PyObj (o : nat)
| PyList (os : list nat)
| PyDict (message : string).

Definition create_failed : string := "데이터베이스 저장에 실패했습니다.".
Definition not_found : string := "해당 ID의 데이터를 찾을 수 없습니다.".
Definition delete_failed : string := "데이터베이스 삭제에 실패했습니다.".

(** [f"데이터(ID: {item_id})가 성공적으로 삭제되었습니다."] *)
Definition deleted_message (item_id : Z) : string :=
  ("데이터(ID: " ++ str_Z item_id ++ ")가 성공적으로 삭제되었습니다.")%string.

Definition create_data_entry (item : DataItemCreate.t) : M pyval :=
  db_entry <- SimpleData_init (DataItemCreate.content item) ;;
  try_except
    (db_add db_entry ;;
     db_commit ;;
     db_refresh db_entry ;;
     ret (PyObj db_entry))
    (fun e =>
       db_rollback ;;
       print ("DB 저장 오류: " ++ str_exn e)%string ;;
       raise (HTTPException 500 create_failed)).

(** A query parameter, or the default of the signature when the request
    has none. *)
Definition param (default : Z) (v : option Z) : Z :=
  match v with
  | Some x => x
  | None => default
  end.

(** [def read_data_entries(skip: int = 0, limit: int = 100, db = ...)] *)
Definition read_data_entries (skip limit : option Z) : M pyval :=
  entries <- query_order_by_offset_limit_all (param 0 skip) (param 100 limit) ;;
  ret (PyList entries).

Definition delete_data_entry (item_id : Z) : M pyval :=
  db_entry <- query_filter_id_first item_id ;;
  match db_entry with
  | None => raise (HTTPException 404 not_found)
  | Some db_entry =>
      try_except
        (db_delete db_entry ;;
         db_commit ;;
         ret (PyDict (deleted_message item_id)))
        (fun e =>
           db_rollback ;;
           print ("DB 삭제 오류: " ++ str_exn e)%string ;;
           raise (HTTPException 500 delete_failed))
  end.

(** ** A request through FastAPI *)

Inductive ResponseModel :=
| RM_DataItem
| RM_List_DataItem
| RM_dict.

Inductive Body :=
| Item (d : DataItem.t)
| Items (ds : list DataItem.t)
| MessageBody (message : string)
| DetailBody (detail : string)
| PlainText (text : string).

Record Response := mkResponse { status : Z; body : Body }.

(** The answer to an exception no handler took, a failed validation of
    the return value included. *)
Definition internal_server_error : Response :=
  mkResponse 500 (PlainText "Internal Server Error").

Fixpoint deref (h : list SimpleData.t) (os : list nat) : option (list SimpleData.t) :=
  match os with
  | [] => Some []
  | o :: rest =>
      match nth_error h o, deref h rest with
      | Some obj, Some objs => Some (obj :: objs)
      | _, _ => None
      end
  end.

(** The return value against the route's [response_model]. *)
Definition serialize_response (rm : ResponseModel) (h : list SimpleData.t)
    (v : pyval) : option Body :=
  match rm, v with
  | RM_DataItem, PyObj o =>
      match nth_error h o with
      | Some obj => option_map Item (from_attributes obj)
      | None => None
      end
  | RM_List_DataItem, PyList os =>
      match deref h os with
      | Some objs => option_map Items (validate_list objs)
      | None => None
      end
  | RM_dict, PyDict m => Some (MessageBody m)
  | _, _ => None
  end.

(** [get_db]: a session for the request, closed on every way out. *)
Definition get_db {A} (use : M A) (env : Env) (s : Server) : (exn + A) * World :=
  let '(r, w) := use env (SessionLocal s) in (r, db_close w).

(** What a request leaves behind: its response, the server's state, and
    what it did to its session. *)
Record Outcome := mkOutcome {
  response : Response;
  server : Server;
  session_events : list Event
}.

Definition request (rm : ResponseModel) (handler : M pyval) (env : Env)
    (s : Server) : Outcome :=
  let '(r, w) := get_db handler env s in
  let resp :=
    match r with
    | inr v =>
        match serialize_response rm (heap w) v with
        | Some b => mkResponse 200 b
        | None => internal_server_error
        end
    | inl (HTTPException c d) => mkResponse c (DetailBody d)
    | inl (SQLAlchemyError _) => internal_server_error
    end in
  mkOutcome resp (srv w) (events w).

(** [@app.post("/api/data", response_model=DataItem)] *)
Definition POST_api_data (item : DataItemCreate.t) : Env -> Server -> Outcome :=
  request RM_DataItem (create_data_entry item).

(** [@app.get("/api/data", response_model=List[DataItem])] *)
Definition GET_api_data (skip limit : option Z) : Env -> Server -> Outcome :=
  request RM_List_DataItem (read_data_entries skip limit).

(** [@app.delete("/api/data/{item_id}", response_model=dict)] *)
Definition DELETE_api_data (item_id : Z) : Env -> Server -> Outcome :=
  request RM_dict (delete_data_entry item_id).

(** ** Sample stores and environments *)

Definition quiet (t : datetime) : Env := mkEnv t NoFault.

Definition hello : DataItemCreate.t := DataItemCreate.mk "hello".

Definition after_three : Server :=
  let s1 := server (POST_api_data (DataItemCreate.mk "a") (quiet 10) create_all) in
  let s2 := server (POST_api_data (DataItemCreate.mk "b") (quiet 20) s1) in
  server (POST_api_data (DataItemCreate.mk "c") (quiet 30) s2).

(** ** Notions the statements use *)

(** A row that [DataItem] accepts: id, content and created_at present. *)
Definition is_record (r : SimpleData.t) : Prop := from_attributes r <> None.

(** The stored set holds records. *)
Definition stored_records (s : Server) : Prop := Forall is_record (simple_data s).

Definition has_id_and_content (r : SimpleData.t) : Prop :=
  SimpleData.id r <> None /\ SimpleData.content r <> None.

(** The ids in use are positive and at most the sequence's last value. *)
Definition id_in_sequence (seq : Z) (r : SimpleData.t) : Prop :=
  match SimpleData.id r with
  | Some i => 0 < i <= seq
  | None => False
  end.

Record invariant (s : Server) : Prop := mkInvariant {
  inv_records : stored_records s;
  inv_seq : 0 <= simple_data_id_seq s;
  inv_ids : Forall (id_in_sequence (simple_data_id_seq s)) (simple_data s);
  inv_unique : NoDup (map SimpleData.id (simple_data s))
}.

(** The states the three routes can produce from the table that
    [create_all] makes. *)
Inductive reachable : Server -> Prop :=
| reach_create_all : reachable create_all
| reach_POST s item env :
    reachable s -> reachable (server (POST_api_data item env s))
| reach_GET s skip limit env :
    reachable s -> reachable (server (GET_api_data skip limit env s))
| reach_DELETE s item_id env :
    reachable s -> reachable (server (DELETE_api_data item_id env s)).

(** The row was created before the instant [t]. *)
Definition older (t : datetime) (r : SimpleData.t) : Prop :=
  match SimpleData.created_at r with
  | Some u => u < t
  | None => False
  end.

(** Every stored record was created before the instant [t]. *)
Definition all_older (t : datetime) (s : Server) : Prop :=
  Forall (older t) (simple_data s).

Definition newest_first (ds : list DataItem.t) : Prop :=
  StronglySorted (fun a b => DataItem.created_at b <= DataItem.created_at a) ds.

(** The rows are in descending order of created_at. *)
Definition descending (rows : list SimpleData.t) : Prop :=
  StronglySorted (fun a b => is_true (CreatedAtDesc.leb a b)) rows.

(** A descending arrangement of the stored rows: the rows of the table,
    each once, the later created_at first. *)
Definition arrangement (s : Server) (rows : list SimpleData.t) : Prop :=
  Permutation (simple_data s) rows /\ descending rows.

(** No two stored rows have the same created_at. *)
Definition distinct_created_at (s : Server) : Prop :=
  NoDup (map SimpleData.created_at (simple_data s)).

(** The rows a listing selects. *)
Definition selected (skip limit : option Z) (s : Server) : list SimpleData.t :=
  fetch (param 0 skip) (param 100 limit) (order_by_created_at_desc (simple_data s)).

(** The row that a create request with content [c] stores. *)
Definition created (s : Server) (c : string) (env : Env) : DataItem.t :=
  DataItem.mk (simple_data_id_seq s + 1) c (now env).

(** When the commit of a create request goes through. *)
Definition insertable (s : Server) (c : string) (env : Env) : bool :=
  match fault env with NoFault => true | _ => false end
  && negb (has_nul c)
  && (simple_data_id_seq s <? INT4_MAX)
  && match select_by_id (simple_data_id_seq s + 1) (simple_data s) with
     | None => true
     | Some _ => false
     end.

(** The server after a create request. *)
Definition posted (s : Server) (c : string) (env : Env) : Server :=
  server (POST_api_data (DataItemCreate.mk c) env s).

Definition broken (t : datetime) : Env :=
  mkEnv t (CommitFault "server closed the connection unexpectedly").

(** ** Configuration and dispatch *)

(** [os.environ] *)
Definition environ := string -> option string.

(** [os.getenv(key, default)] *)
Definition getenv (e : environ) (key default : string) : string :=
  match e key with
  | Some v => v
  | None => default
  end.

(** The five module-level constants read from the environment. *)
Record Config := mkConfig {
  DB_USER : string;
  DB_PASSWORD : string;
  DB_HOST : string;
  DB_PORT : string;
  DB_NAME : string
}.

Definition config (e : environ) : Config :=
  mkConfig (getenv e "DB_USER" "postgres") (getenv e "DB_PASSWORD" "password")
           (getenv e "DB_HOST" "localhost") (getenv e "DB_PORT" "5432")
           (getenv e "DB_NAME" "newdb").

(** [f"postgresql://{DB_USER}:{DB_PASSWORD}@{DB_HOST}:{DB_PORT}/{DB_NAME}"] *)
Definition DATABASE_URL (c : Config) : string :=
  ("postgresql://" ++ DB_USER c ++ ":" ++ DB_PASSWORD c ++ "@" ++ DB_HOST c
     ++ ":" ++ DB_PORT c ++ "/" ++ DB_NAME c)%string.

(** [read_root]: the dict's message. *)
Definition read_root (e : environ) : string :=
  ("Server is running on " ++ getenv e "HOSTNAME" "N/A")%string.

(** The character [c] occurs in [s]. *)
Fixpoint occurs (c : ascii) (s : string) : bool :=
  match s with
  | EmptyString => false
  | String a rest => Ascii.eqb a c || occurs c rest
  end.

(** No value of the configuration holds the character that ends it in the
    URL: the user no colon, the password no at sign, the host no colon, the
    port no slash. *)
Definition delimited (c : Config) : bool :=
  negb (occurs ":"%char (DB_USER c)) && negb (occurs "@"%char (DB_PASSWORD c))
  && negb (occurs ":"%char (DB_HOST c)) && negb (occurs "/"%char (DB_PORT c)).

(** The requests the application routes. *)
Inductive Request :=
| POST (item : DataItemCreate.t)
| GET (skip limit : option Z)
| DELETE (item_id : Z).

Definition handle (rq : Request) : Env -> Server -> Outcome :=
  match rq with
  | POST item => POST_api_data item
  | GET skip limit => GET_api_data skip limit
  | DELETE item_id => DELETE_api_data item_id
  end.

(** The server after a sequence of requests, each in its environment. *)
Fixpoint serve (rqs : list (Request * Env)) (s : Server) : Server :=
  match rqs with
  | [] => s
  | (rq, env) :: rest => serve rest (server (handle rq env s))
  end.

(** What a request answered 200 adds to the number of stored records: a
    create one, a delete minus one; any other answer, nothing. *)
Definition net_change (rq : Request) (r : Response) : Z :=
  match rq with
  | POST _ => if status r =? 200 then 1 else 0
  | GET _ _ => 0
  | DELETE _ => if status r =? 200 then -1 else 0
  end.

(** The sum of the net changes along a sequence of requests. *)
Fixpoint tally (rqs : list (Request * Env)) (s : Server) : Z :=
  match rqs with
  | [] => 0
  | (rq, env) :: rest =>
      net_change rq (response (handle rq env s))
      + tally rest (server (handle rq env s))
  end.

(** An environment that sets only [DB_HOST], to the default's value. *)
Definition host_set : environ :=
  fun key => if String.eqb key "DB_HOST" then Some "localhost" else None.

(** A table with a row whose content is NULL, as another client of the
    database can leave it: the column is nullable. *)
Definition with_null_content : Server :=
  mkServer [SimpleData.mk (Some 1) (Some "a") (Some 10);
            SimpleData.mk (Some 2) None (Some 20)] 2 [].

(** ** The routes on a store of three records *)

Example list_after_three :
  response (GET_api_data None None (quiet 40) after_three) =
  mkResponse 200 (Items [DataItem.mk 3 "c" 30; DataItem.mk 2 "b" 20; DataItem.mk 1 "a" 10]).
Proof. reflexivity. Qed.

Example list_negative_skip :
  GET_api_data (Some (-1)) None (quiet 40) after_three =
  mkOutcome internal_server_error after_three [QueryRaised; Close].
Proof. reflexivity. Qed.

Example delete_second :
  simple_data (server (DELETE_api_data 2 (quiet 40) after_three)) =
  [SimpleData.mk (Some 1) (Some "a") (Some 10);
   SimpleData.mk (Some 3) (Some "c") (Some 30)].
Proof. reflexivity. Qed.

Example delete_second_broken :
  DELETE_api_data 2 (broken 40) after_three =
  mkOutcome (mkResponse 500 (DetailBody delete_failed))
    (mkServer (simple_data after_three) 3
       ["DB 삭제 오류: server closed the connection unexpectedly"])
    [Query; CommitRaised; Rollback; Close].
Proof. reflexivity. Qed.

Example create_broken_takes_an_id :
  server (POST_api_data hello (broken 40) after_three) =
  mkServer (simple_data after_three) 4
    ["DB 저장 오류: server closed the connection unexpectedly"].
Proof. reflexivity. Qed.

(** ** Proof steps that recur *)

(** [H] says that an event is in a list of events none of which it is. *)
Ltac no_event H :=
  repeat (destruct H as [H | H]; [discriminate H |]); destruct H.

(** ** Properties of the store's operations *)

Lemma nth_error_app_here {A} (h : list A) (x : A) (t : list A) :
  nth_error (h ++ x :: t) (List.length h) = Some x.
Proof.
  induction h as [| y h IH]; simpl; [reflexivity | exact IH].
Qed.

Lemma deref_seq (rows h : list SimpleData.t) :
  deref (h ++ rows) (seq (List.length h) (List.length rows)) = Some rows.
Proof.
  revert h. induction rows as [| r rows IH]; intro h; simpl.
  - reflexivity.
  - rewrite nth_error_app_here.
    replace (h ++ r :: rows) with ((h ++ [r]) ++ rows)
      by (rewrite <- app_assoc; reflexivity).
    replace (S (List.length h)) with (List.length (h ++ [r]))
      by (rewrite length_app; simpl; lia).
    rewrite IH. reflexivity.
Qed.

Lemma from_attributes_to_row (d : DataItem.t) : from_attributes (to_row d) = Some d.
Proof. destruct d; reflexivity. Qed.

Lemma from_attributes_inv (r : SimpleData.t) (d : DataItem.t) :
  from_attributes r = Some d -> r = to_row d.
Proof.
  destruct r as [[i|] [c|] [t|]]; unfold from_attributes; simpl;
    intro H; inversion H; reflexivity.
Qed.

Lemma validate_list_map (ds : list DataItem.t) :
  validate_list (map to_row ds) = Some ds.
Proof.
  induction ds as [| d ds IH]; cbn [validate_list map]; [reflexivity |].
  rewrite from_attributes_to_row, IH. reflexivity.
Qed.

Lemma validate_list_inv (rows : list SimpleData.t) (ds : list DataItem.t) :
  validate_list rows = Some ds -> rows = map to_row ds.
Proof.
  revert ds. induction rows as [| r rows IH]; intros ds H; simpl in H.
  - inversion H. reflexivity.
  - destruct (from_attributes r) as [d|] eqn:Hr; [| discriminate].
    destruct (validate_list rows) as [ds'|] eqn:Hv; [| discriminate].
    inversion H; subst. simpl.
    rewrite (from_attributes_inv _ _ Hr), (IH ds' eq_refl). reflexivity.
Qed.

Lemma validate_records (rows : list SimpleData.t) :
  Forall is_record rows -> exists ds, validate_list rows = Some ds /\ map to_row ds = rows.
Proof.
  induction 1 as [| r rows Hr _ IH].
  - exists []. split; reflexivity.
  - destruct IH as [ds [Hv Hm]].
    destruct (from_attributes r) as [d|] eqn:Hd; [| elim Hr; exact Hd].
    exists (d :: ds). simpl. rewrite Hd, Hv. split; [reflexivity |].
    rewrite Hm, <- (from_attributes_inv _ _ Hd). reflexivity.
Qed.

(** *** ORDER BY *)

Lemma desc_trans : Transitive (fun a b => is_true (CreatedAtDesc.leb a b)).
Proof.
  intros a b c. unfold is_true, CreatedAtDesc.leb.
  destruct (SimpleData.created_at a), (SimpleData.created_at b),
    (SimpleData.created_at c); try congruence; try reflexivity.
  rewrite !Z.leb_le. lia.
Qed.

Lemma order_by_sorted (rows : list SimpleData.t) :
  StronglySorted (fun a b => is_true (CreatedAtDesc.leb a b))
    (order_by_created_at_desc rows).
Proof. apply OrderBy.StronglySorted_sort, desc_trans. Qed.

Lemma order_by_perm (rows : list SimpleData.t) :
  Permutation rows (order_by_created_at_desc rows).
Proof. apply OrderBy.Permuted_sort. Qed.

(** A row that is strictly later than all the others comes first, whatever
    the order among the others. *)
Lemma sorted_head (rows l : list SimpleData.t) (x : SimpleData.t) :
  Permutation (rows ++ [x]) l ->
  StronglySorted (fun a b => is_true (CreatedAtDesc.leb a b)) l ->
  Forall (fun r => CreatedAtDesc.leb r x = false) rows ->
  exists l', l = x :: l' /\ Permutation rows l' /\
             StronglySorted (fun a b => is_true (CreatedAtDesc.leb a b)) l'.
Proof.
  intros Hp Hs Hlt.
  destruct l as [| y l'].
  - apply Permutation_sym, Permutation_nil in Hp.
    destruct rows; discriminate.
  - inversion Hs as [| ? ? Hs' Hall]; subst.
    assert (Hy : In y (rows ++ [x]))
      by (eapply Permutation_in; [apply Permutation_sym; exact Hp | left; reflexivity]).
    assert (Hx : In x (y :: l'))
      by (eapply Permutation_in; [exact Hp | apply in_or_app; right; left; reflexivity]).
    assert (Heq : y = x).
    { apply in_app_or in Hy. destruct Hy as [Hy | [Hy | []]]; [| auto].
      destruct Hx as [Hx | Hx]; [exact Hx |].
      rewrite Forall_forall in Hlt, Hall.
      specialize (Hlt _ Hy). specialize (Hall _ Hx).
      unfold is_true in Hall. congruence. }
    subst y. exists l'. split; [reflexivity |]. split; [| exact Hs'].
    apply Permutation_cons_inv with (a := x).
    eapply Permutation_trans; [| exact Hp].
    apply Permutation_cons_append.
Qed.

(** *** OFFSET and LIMIT *)

Lemma fetch_limit (count : Z) (rows : list SimpleData.t) :
  0 <= count -> fetch 0 count rows = firstn (Z.to_nat count) rows.
Proof.
  revert count. induction rows as [| r rows IH]; intros count Hc; simpl.
  - rewrite firstn_nil. reflexivity.
  - destruct (Z.ltb_spec 0 count) as [Hpos | Hzero].
    + rewrite IH by lia.
      replace (Z.to_nat count) with (S (Z.to_nat (count - 1))) by lia.
      reflexivity.
    + replace count with 0 by lia. reflexivity.
Qed.

Lemma fetch_spec (offset count : Z) (rows : list SimpleData.t) :
  0 <= offset -> 0 <= count ->
  fetch offset count rows = firstn (Z.to_nat count) (skipn (Z.to_nat offset) rows).
Proof.
  revert offset. induction rows as [| r rows IH]; intros offset Ho Hc.
  - simpl. rewrite skipn_nil, firstn_nil. reflexivity.
  - destruct (Z.ltb_spec 0 offset) as [Hpos | Hzero].
    + simpl. destruct (Z.ltb_spec 0 offset); [| lia].
      rewrite IH by lia.
      replace (Z.to_nat offset) with (S (Z.to_nat (offset - 1))) by lia.
      reflexivity.
    + replace offset with 0 by lia. apply fetch_limit. exact Hc.
Qed.

Lemma fetch_incl (offset count : Z) (rows : list SimpleData.t) :
  incl (fetch offset count rows) rows.
Proof.
  revert offset count. induction rows as [| r rows IH]; intros offset count; simpl.
  - apply incl_refl.
  - destruct (0 <? offset).
    + apply incl_tl, IH.
    + destruct (0 <? count).
      * apply incl_cons; [left; reflexivity | apply incl_tl, IH].
      * apply incl_nil_l.
Qed.

Lemma fetch_length (offset count : Z) (rows : list SimpleData.t) :
  0 <= count -> Z.of_nat (List.length (fetch offset count rows)) <= count.
Proof.
  revert offset count. induction rows as [| r rows IH]; intros offset count Hc; simpl.
  - exact Hc.
  - destruct (0 <? offset).
    + apply IH, Hc.
    + destruct (Z.ltb_spec 0 count); simpl List.length.
      * specialize (IH 0 (count - 1)). lia.
      * lia.
Qed.

Lemma fetch_beyond (offset count : Z) (rows : list SimpleData.t) :
  Z.of_nat (List.length rows) <= offset -> fetch offset count rows = [].
Proof.
  revert offset. induction rows as [| r rows IH]; intros offset Hlen; simpl.
  - reflexivity.
  - simpl List.length in Hlen.
    destruct (Z.ltb_spec 0 offset); [| lia].
    apply IH. lia.
Qed.

Lemma fetch_sorted (R : SimpleData.t -> SimpleData.t -> Prop) (offset count : Z)
    (rows : list SimpleData.t) :
  StronglySorted R rows -> StronglySorted R (fetch offset count rows).
Proof.
  intro Hs. revert offset count.
  induction Hs as [| r rows Hs IH Hall]; intros offset count; simpl.
  - constructor.
  - destruct (0 <? offset); [apply IH |].
    destruct (0 <? count); [| constructor].
    constructor; [apply IH |].
    rewrite Forall_forall in *. intros x Hx. apply Hall.
    eapply fetch_incl. exact Hx.
Qed.

Lemma check_offset_limit_ok (offset count : Z) :
  0 <= offset <= INT8_MAX -> 0 <= count <= INT8_MAX ->
  check_offset_limit offset count = None.
Proof.
  intros Ho Hc. unfold check_offset_limit.
  destruct (Z.ltb_spec INT8_MAX offset); [lia |].
  destruct (Z.ltb_spec INT8_MAX count); [lia |].
  destruct (Z.ltb_spec offset 0); [lia |].
  destruct (Z.ltb_spec count 0); [lia |].
  reflexivity.
Qed.

Lemma check_offset_limit_refused (offset count : Z) :
  offset < 0 \/ INT8_MAX < offset \/ count < 0 \/ INT8_MAX < count ->
  exists e, check_offset_limit offset count = Some e.
Proof.
  intro H. unfold check_offset_limit.
  destruct (Z.ltb_spec INT8_MAX offset); simpl; [eauto |].
  destruct (Z.ltb_spec INT8_MAX count); simpl; [eauto |].
  destruct (Z.ltb_spec offset 0); [eauto |].
  destruct (Z.ltb_spec count 0); [eauto |].
  lia.
Qed.

(** ** What each route does, case by case *)

Lemma deref_all (rows : list SimpleData.t) :
  deref rows (seq 0 (List.length rows)) = Some rows.
Proof. exact (deref_seq rows []). Qed.

Lemma GET_refused (skip limit : option Z) (env : Env) (s : Server) (e : string) :
  check_offset_limit (param 0 skip) (param 100 limit) = Some e ->
  GET_api_data skip limit env s = mkOutcome internal_server_error s [QueryRaised; Close].
Proof.
  intro H.
  unfold GET_api_data, request, get_db, read_data_entries, bind,
    query_order_by_offset_limit_all.
  rewrite H. reflexivity.
Qed.

Lemma GET_accepted (skip limit : option Z) (env : Env) (s : Server) :
  check_offset_limit (param 0 skip) (param 100 limit) = None ->
  GET_api_data skip limit env s =
  mkOutcome
    (match validate_list (selected skip limit s) with
     | Some ds => mkResponse 200 (Items ds)
     | None => internal_server_error
     end) s [Query; Close].
Proof.
  intro H.
  unfold GET_api_data, request, get_db, read_data_entries, bind,
    query_order_by_offset_limit_all, ret.
  rewrite H. cbn [SessionLocal heap List.length app db_close log_event with_heap
                  with_pending srv events serialize_response new deleted].
  fold (selected skip limit s). rewrite deref_all.
  destruct (validate_list (selected skip limit s)); reflexivity.
Qed.

Lemma GET_records (skip limit : option Z) (env : Env) (s : Server) :
  stored_records s ->
  check_offset_limit (param 0 skip) (param 100 limit) = None ->
  exists ds,
    GET_api_data skip limit env s = mkOutcome (mkResponse 200 (Items ds)) s [Query; Close] /\
    map to_row ds = selected skip limit s.
Proof.
  intros Hrec Hchk.
  assert (Hsel : Forall is_record (selected skip limit s)).
  { unfold stored_records in Hrec. rewrite Forall_forall in *. intros r Hr.
    apply Hrec. eapply Permutation_in; [apply Permutation_sym, order_by_perm |].
    eapply fetch_incl. exact Hr. }
  destruct (validate_records _ Hsel) as [ds [Hv Hm]].
  exists ds. split; [| exact Hm].
  rewrite GET_accepted by exact Hchk. rewrite Hv. reflexivity.
Qed.

Lemma find_app_fresh (k : Z) (rows : list SimpleData.t) (r : SimpleData.t) :
  select_by_id k rows = None -> SimpleData.id r = Some k ->
  select_by_id k (rows ++ [r]) = Some r.
Proof.
  unfold select_by_id. intros Hnone Hid.
  induction rows as [| x rows IH]; simpl in *.
  - unfold pk_eqb. rewrite Hid, Z.eqb_refl. reflexivity.
  - destruct (pk_eqb k x); [discriminate | apply IH, Hnone].
Qed.

Lemma insert_transient (clock : datetime) (c : string) (rows : list SimpleData.t)
    (seq : Z) :
  insert clock (SimpleData.mk None (Some c) None) rows seq =
  if has_nul c
  then inl ("A string literal cannot contain NUL (0x00) characters.", seq)
  else if INT4_MAX <=? seq
  then inl ("nextval: reached maximum value of sequence", seq)
  else match select_by_id (seq + 1) rows with
       | Some _ => inl ("duplicate key value violates unique constraint", seq + 1)
       | None =>
           inr (SimpleData.mk (Some (seq + 1)) (Some c) (Some clock),
                rows ++ [SimpleData.mk (Some (seq + 1)) (Some c) (Some clock)],
                seq + 1)
       end.
Proof. reflexivity. Qed.

Lemma POST_success (s : Server) (c : string) (env : Env) :
  insertable s c env = true ->
  POST_api_data (DataItemCreate.mk c) env s =
  mkOutcome (mkResponse 200 (Item (created s c env)))
    (mkServer (simple_data s ++ [to_row (created s c env)])
              (simple_data_id_seq s + 1) (stdout s))
    [Commit; Refresh; Close].
Proof.
  unfold insertable. rewrite !andb_true_iff.
  intros [[[Hf Hnul] Hseq] Hfresh].
  destruct (select_by_id (simple_data_id_seq s + 1) (simple_data s)) eqn:Hsel;
    [discriminate |].
  apply negb_true_iff in Hnul.
  assert (Hseq' : (INT4_MAX <=? simple_data_id_seq s) = false)
    by (apply Z.leb_gt, Z.ltb_lt, Hseq).
  unfold POST_api_data, request, get_db, create_data_entry, bind, try_except,
    SimpleData_init, db_add, db_commit, db_refresh, modify, ret.
  cbn [SessionLocal heap new deleted srv events with_heap with_pending app
       List.length DataItemCreate.content].
  destruct (fault env); try discriminate.
  cbn [flush_new nth_error].
  rewrite insert_transient, Hnul, Hseq', Hsel.
  cbn [flush_new flush_deleted set_nth log_event heap srv simple_data
       simple_data_id_seq nth_error SimpleData.id events new deleted stdout].
  rewrite (find_app_fresh _ _
             (SimpleData.mk (Some (simple_data_id_seq s + 1)) (Some c) (Some (now env)))
             Hsel eq_refl).
  reflexivity.
Qed.

Lemma POST_failure (s : Server) (c : string) (env : Env) :
  insertable s c env = false ->
  exists seq' line,
    POST_api_data (DataItemCreate.mk c) env s =
    mkOutcome (mkResponse 500 (DetailBody create_failed))
      (mkServer (simple_data s) seq' (stdout s ++ [line]))
      [CommitRaised; Rollback; Close] /\
    simple_data_id_seq s <= seq' <= simple_data_id_seq s + 1.
Proof.
  intro Hins.
  unfold POST_api_data, request, get_db, create_data_entry, bind, try_except,
    SimpleData_init, db_add, db_commit, db_rollback, print, raise, modify, ret.
  cbn [SessionLocal heap new deleted srv events with_heap with_pending app
       List.length DataItemCreate.content].
  unfold insertable in Hins.
  destruct (fault env) as [| e | e] eqn:Hf.
  - cbn [flush_new nth_error]. rewrite insert_transient.
    simpl andb in Hins.
    destruct (has_nul c).
    { eexists _, _. split; [reflexivity | simpl; lia]. }
    destruct (Z.leb_spec INT4_MAX (simple_data_id_seq s)) as [Hmax | Hmax].
    { eexists _, _. split; [reflexivity | simpl; lia]. }
    destruct (select_by_id (simple_data_id_seq s + 1) (simple_data s)).
    { eexists _, _. split; [reflexivity | simpl; lia]. }
    apply Z.ltb_lt in Hmax. rewrite Hmax in Hins. discriminate.
  - eexists _, _. split; [reflexivity | simpl; lia].
  - cbn [flush_new nth_error]. rewrite insert_transient.
    destruct (has_nul c).
    { eexists _, _. split; [reflexivity | simpl; lia]. }
    destruct (INT4_MAX <=? simple_data_id_seq s).
    { eexists _, _. split; [reflexivity | simpl; lia]. }
    destruct (select_by_id (simple_data_id_seq s + 1) (simple_data s)).
    { eexists _, _. split; [reflexivity | simpl; lia]. }
    eexists _, _. split; [reflexivity | simpl; lia].
Qed.

Lemma select_by_id_some (k : Z) (rows : list SimpleData.t) (r : SimpleData.t) :
  select_by_id k rows = Some r -> In r rows /\ SimpleData.id r = Some k.
Proof.
  unfold select_by_id. intro H. apply find_some in H. destruct H as [Hin Hk].
  split; [exact Hin |].
  unfold pk_eqb in Hk. destruct (SimpleData.id r) as [i|]; [| discriminate].
  apply Z.eqb_eq in Hk. subst. reflexivity.
Qed.

Lemma select_by_id_none (k : Z) (rows : list SimpleData.t) :
  select_by_id k rows = None <-> ~ In (Some k) (map SimpleData.id rows).
Proof.
  unfold select_by_id. split.
  - intros H Hin. apply in_map_iff in Hin. destruct Hin as [r [Hid Hr]].
    pose proof (find_none _ _ H _ Hr) as Hk.
    unfold pk_eqb in Hk. rewrite Hid, Z.eqb_refl in Hk. discriminate.
  - intro H. destruct (find (pk_eqb k) rows) as [r|] eqn:Hf; [| reflexivity].
    elim H. destruct (select_by_id_some k rows r Hf) as [Hin Hid].
    rewrite <- Hid. apply in_map. exact Hin.
Qed.

Lemma DELETE_absent (item_id : Z) (env : Env) (s : Server) :
  select_by_id item_id (simple_data s) = None ->
  DELETE_api_data item_id env s =
  mkOutcome (mkResponse 404 (DetailBody not_found)) s [Query; Close].
Proof.
  intro H.
  unfold DELETE_api_data, request, get_db, delete_data_entry, bind,
    query_filter_id_first, raise.
  cbn [SessionLocal srv]. rewrite H. reflexivity.
Qed.

Lemma DELETE_committed (item_id : Z) (env : Env) (s : Server) (r : SimpleData.t) :
  select_by_id item_id (simple_data s) = Some r ->
  fault env = NoFault ->
  DELETE_api_data item_id env s =
  mkOutcome (mkResponse 200 (MessageBody (deleted_message item_id)))
    (mkServer (delete_by_id item_id (simple_data s)) (simple_data_id_seq s) (stdout s))
    [Query; Commit; Close].
Proof.
  intros H Hf.
  destruct (select_by_id_some _ _ _ H) as [_ Hid].
  unfold DELETE_api_data, request, get_db, delete_data_entry, bind, try_except,
    query_filter_id_first, db_delete, db_commit, modify, ret.
  cbn [SessionLocal srv]. rewrite H.
  cbn [SessionLocal heap new deleted srv events with_heap with_pending log_event
       app List.length].
  rewrite Hf.
  cbn [flush_new flush_deleted nth_error]. rewrite Hid.
  reflexivity.
Qed.

Lemma DELETE_failed (item_id : Z) (env : Env) (s : Server) (r : SimpleData.t) :
  select_by_id item_id (simple_data s) = Some r ->
  fault env <> NoFault ->
  exists line,
    DELETE_api_data item_id env s =
    mkOutcome (mkResponse 500 (DetailBody delete_failed))
      (mkServer (simple_data s) (simple_data_id_seq s) (stdout s ++ [line]))
      [Query; CommitRaised; Rollback; Close].
Proof.
  intros H Hf.
  unfold DELETE_api_data, request, get_db, delete_data_entry, bind, try_except,
    query_filter_id_first, db_delete, db_commit, db_rollback, print, raise,
    modify, ret.
  cbn [SessionLocal srv]. rewrite H.
  cbn [SessionLocal heap new deleted srv events with_heap with_pending log_event
       app List.length].
  destruct (fault env) as [| e | e]; [elim Hf; reflexivity | |];
    eexists; reflexivity.
Qed.

Lemma POST_cases (s : Server) (c : string) (env : Env) :
  (insertable s c env = true /\
   POST_api_data (DataItemCreate.mk c) env s =
   mkOutcome (mkResponse 200 (Item (created s c env)))
     (mkServer (simple_data s ++ [to_row (created s c env)])
               (simple_data_id_seq s + 1) (stdout s))
     [Commit; Refresh; Close]) \/
  (insertable s c env = false /\
   exists seq' line,
     POST_api_data (DataItemCreate.mk c) env s =
     mkOutcome (mkResponse 500 (DetailBody create_failed))
       (mkServer (simple_data s) seq' (stdout s ++ [line]))
       [CommitRaised; Rollback; Close] /\
     simple_data_id_seq s <= seq' <= simple_data_id_seq s + 1).
Proof.
  destruct (insertable s c env) eqn:Hins.
  - left. split; [reflexivity | apply POST_success, Hins].
  - right. split; [reflexivity | apply POST_failure, Hins].
Qed.

Lemma POST_created (s : Server) (c : string) (env : Env) (r : DataItem.t) :
  response (POST_api_data (DataItemCreate.mk c) env s) = mkResponse 200 (Item r) ->
  r = created s c env /\
  server (POST_api_data (DataItemCreate.mk c) env s) =
  mkServer (simple_data s ++ [to_row r]) (simple_data_id_seq s + 1) (stdout s).
Proof.
  intro H.
  destruct (POST_cases s c env) as [[_ Heq] | [_ [seq' [line [Heq _]]]]];
    rewrite Heq in *; cbn [response server] in *.
  - inversion H; subst. split; reflexivity.
  - discriminate.
Qed.

Lemma DELETE_cases (item_id : Z) (env : Env) (s : Server) :
  (select_by_id item_id (simple_data s) = None /\
   DELETE_api_data item_id env s =
   mkOutcome (mkResponse 404 (DetailBody not_found)) s [Query; Close]) \/
  (select_by_id item_id (simple_data s) <> None /\ fault env = NoFault /\
   DELETE_api_data item_id env s =
   mkOutcome (mkResponse 200 (MessageBody (deleted_message item_id)))
     (mkServer (delete_by_id item_id (simple_data s)) (simple_data_id_seq s) (stdout s))
     [Query; Commit; Close]) \/
  (select_by_id item_id (simple_data s) <> None /\ fault env <> NoFault /\
   exists line,
     DELETE_api_data item_id env s =
     mkOutcome (mkResponse 500 (DetailBody delete_failed))
       (mkServer (simple_data s) (simple_data_id_seq s) (stdout s ++ [line]))
       [Query; CommitRaised; Rollback; Close]).
Proof.
  destruct (select_by_id item_id (simple_data s)) as [r|] eqn:Hsel.
  - right. destruct (fault env) eqn:Hf.
    + left. split; [discriminate |]. split; [reflexivity |].
      eapply DELETE_committed; eassumption.
    + right. split; [discriminate |]. split; [discriminate |].
      eapply DELETE_failed; [eassumption | rewrite Hf; discriminate].
    + right. split; [discriminate |]. split; [discriminate |].
      eapply DELETE_failed; [eassumption | rewrite Hf; discriminate].
  - left. split; [reflexivity | apply DELETE_absent, Hsel].
Qed.

Lemma GET_server (skip limit : option Z) (env : Env) (s : Server) :
  server (GET_api_data skip limit env s) = s /\
  (session_events (GET_api_data skip limit env s) = [Query; Close] \/
   session_events (GET_api_data skip limit env s) = [QueryRaised; Close]).
Proof.
  destruct (check_offset_limit (param 0 skip) (param 100 limit)) as [e|] eqn:Hchk.
  - rewrite (GET_refused _ _ _ _ _ Hchk). split; [reflexivity | right; reflexivity].
  - rewrite (GET_accepted _ _ _ _ Hchk). split; [reflexivity | left; reflexivity].
Qed.

(** ** The invariant of the stored set *)

Lemma is_record_has_id_and_content (r : SimpleData.t) :
  is_record r -> has_id_and_content r.
Proof.
  unfold is_record, has_id_and_content, from_attributes.
  destruct r as [[i|] [c|] [t|]]; cbn; intro H; split;
    first [discriminate | elim H; reflexivity].
Qed.

Lemma is_record_to_row (d : DataItem.t) : is_record (to_row d).
Proof. unfold is_record. rewrite from_attributes_to_row. discriminate. Qed.

(** A DELETE keeps the primary keys of the remaining rows distinct. *)
Lemma delete_by_id_unique (k : Z) (rows : list SimpleData.t) :
  NoDup (map SimpleData.id rows) ->
  NoDup (map SimpleData.id (delete_by_id k rows)).
Proof.
  unfold delete_by_id.
  induction rows as [| r rows IH]; cbn [map filter]; intro Hnd; [exact Hnd |].
  apply NoDup_cons_iff in Hnd. destruct Hnd as [Hfresh Hnd].
  destruct (negb (pk_eqb k r)); [| exact (IH Hnd)].
  cbn [map]. apply NoDup_cons; [| exact (IH Hnd)].
  intro Hin. apply Hfresh.
  apply in_map_iff in Hin. destruct Hin as [r' [Hid Hr']].
  apply filter_In in Hr'. rewrite <- Hid. apply in_map, Hr'.
Qed.

Lemma Forall_filter {A} (P : A -> Prop) (p : A -> bool) (l : list A) :
  Forall P l -> Forall P (filter p l).
Proof.
  rewrite !Forall_forall. intros H x Hx. apply H.
  apply filter_In in Hx. tauto.
Qed.

Lemma invariant_POST (s : Server) (item : DataItemCreate.t) (env : Env) :
  invariant s -> invariant (server (POST_api_data item env s)).
Proof.
  intros [Hrec Hseq Hids Hnd]. destruct item as [c].
  destruct (POST_cases s c env) as [[_ Heq] | [_ [seq' [line [Heq Hle]]]]];
    rewrite Heq; cbn [server].
  - constructor; unfold stored_records; cbn [simple_data simple_data_id_seq].
    + apply Forall_app. split; [exact Hrec |].
      constructor; [apply is_record_to_row | constructor].
    + lia.
    + apply Forall_app. split.
      * eapply Forall_impl; [| exact Hids]. intros r Hr.
        unfold id_in_sequence in *. destruct (SimpleData.id r); [lia | exact Hr].
      * constructor; [| constructor].
        unfold id_in_sequence, created, to_row. cbn. lia.
    + rewrite map_app. cbn [map to_row created SimpleData.id DataItem.id].
      apply NoDup_app; [exact Hnd | |].
      * constructor; [intros [] | constructor].
      * intros x Hx [Hx' | []]. subst x.
        apply in_map_iff in Hx. destruct Hx as [r [Hid Hr]].
        rewrite Forall_forall in Hids. specialize (Hids r Hr).
        unfold id_in_sequence in Hids. rewrite Hid in Hids. lia.
  - constructor; unfold stored_records; cbn [simple_data simple_data_id_seq].
    + exact Hrec.
    + lia.
    + eapply Forall_impl; [| exact Hids]. intros r Hr.
      unfold id_in_sequence in *. destruct (SimpleData.id r); [lia | exact Hr].
    + exact Hnd.
Qed.

Lemma invariant_DELETE (s : Server) (item_id : Z) (env : Env) :
  invariant s -> invariant (server (DELETE_api_data item_id env s)).
Proof.
  intros [Hrec Hseq Hids Hnd].
  destruct (DELETE_cases item_id env s)
    as [[_ Heq] | [[_ [_ Heq]] | [_ [_ [line Heq]]]]];
    rewrite Heq; cbn [server].
  - constructor; assumption.
  - constructor; unfold stored_records, delete_by_id;
      cbn [simple_data simple_data_id_seq].
    + apply Forall_filter, Hrec.
    + exact Hseq.
    + apply Forall_filter, Hids.
    + apply delete_by_id_unique, Hnd.
  - constructor; assumption.
Qed.

Lemma invariant_GET (s : Server) (skip limit : option Z) (env : Env) :
  invariant s -> invariant (server (GET_api_data skip limit env s)).
Proof.
  intro H. destruct (GET_server skip limit env s) as [Heq _].
  rewrite Heq. exact H.
Qed.

Lemma invariant_create_all : invariant create_all.
Proof.
  constructor; unfold stored_records; cbn; try constructor. lia.
Qed.

Lemma reachable_invariant (s : Server) : reachable s -> invariant s.
Proof.
  induction 1.
  - apply invariant_create_all.
  - apply invariant_POST; assumption.
  - apply invariant_GET; assumption.
  - apply invariant_DELETE; assumption.
Qed.

Lemma reachable_after_three : reachable after_three.
Proof. unfold after_three. repeat apply reach_POST. apply reach_create_all. Qed.

(** *** Listings after creations *)

Lemma older_desc (d : DataItem.t) (r : SimpleData.t) :
  older (DataItem.created_at d) r -> CreatedAtDesc.leb r (to_row d) = false.
Proof.
  unfold older, CreatedAtDesc.leb, to_row. cbn [SimpleData.created_at].
  destruct (SimpleData.created_at r) as [u|]; [| tauto].
  intro H. apply Z.leb_gt. exact H.
Qed.

Lemma older_later (t t' : datetime) (r : SimpleData.t) :
  t <= t' -> older t r -> older t' r.
Proof.
  unfold older. destruct (SimpleData.created_at r); [lia | tauto].
Qed.

Lemma newest_comes_first (rows l : list SimpleData.t) (d : DataItem.t) :
  Permutation (rows ++ [to_row d]) l ->
  StronglySorted (fun a b => is_true (CreatedAtDesc.leb a b)) l ->
  Forall (older (DataItem.created_at d)) rows ->
  exists l', l = to_row d :: l' /\ Permutation rows l' /\
             StronglySorted (fun a b => is_true (CreatedAtDesc.leb a b)) l'.
Proof.
  intros Hp Hs Hold. apply sorted_head; [exact Hp | exact Hs |].
  eapply Forall_impl; [| exact Hold]. intros r. apply older_desc.
Qed.

Lemma to_row_inj (d d' : DataItem.t) : to_row d = to_row d' -> d = d'.
Proof. destruct d, d'. unfold to_row. cbn. intro H. inversion H. reflexivity. Qed.

Lemma map_to_row_cons (ds : list DataItem.t) (d : DataItem.t) (rows : list SimpleData.t) :
  map to_row ds = to_row d :: rows ->
  exists ds', ds = d :: ds' /\ map to_row ds' = rows.
Proof.
  destruct ds as [| d0 ds']; cbn [map]; intro H; [discriminate |].
  pose proof (f_equal (fun l => hd (to_row d) l) H) as Hd.
  pose proof (f_equal (@tl SimpleData.t) H) as Hrows.
  cbn [hd tl] in Hd, Hrows. apply to_row_inj in Hd. subst.
  exists ds'. split; reflexivity.
Qed.

Lemma map_to_row_nil (ds : list DataItem.t) : map to_row ds = [] -> ds = [].
Proof. destruct ds; [reflexivity | discriminate]. Qed.

Lemma check_defaults : check_offset_limit 0 100 = None.
Proof. reflexivity. Qed.

Lemma stored_records_POST (s : Server) (c : string) (env : Env) :
  stored_records s -> stored_records (server (POST_api_data (DataItemCreate.mk c) env s)).
Proof.
  intro Hrec.
  destruct (POST_cases s c env) as [[_ Heq] | [_ [seq' [line [Heq _]]]]];
    rewrite Heq; unfold stored_records; cbn [server simple_data]; [| exact Hrec].
  apply Forall_app. split; [exact Hrec |].
  constructor; [apply is_record_to_row | constructor].
Qed.

(** After a create whose clock reading is later than every stored
    created_at, the descending order starts with the new record. *)
Lemma order_by_after_create (s : Server) (c : string) (env : Env) (r : DataItem.t) :
  all_older (now env) s ->
  response (POST_api_data (DataItemCreate.mk c) env s) = mkResponse 200 (Item r) ->
  DataItem.created_at r = now env /\
  exists rest,
    order_by_created_at_desc
      (simple_data (server (POST_api_data (DataItemCreate.mk c) env s))) =
    to_row r :: rest /\
    Permutation (simple_data s) rest /\
    StronglySorted (fun a b => is_true (CreatedAtDesc.leb a b)) rest.
Proof.
  intros Hold Hresp.
  destruct (POST_created _ _ _ _ Hresp) as [Hr Hsrv].
  assert (Ht : DataItem.created_at r = now env) by (subst r; reflexivity).
  split; [exact Ht |].
  rewrite Hsrv. cbn [simple_data].
  apply newest_comes_first.
  - apply order_by_perm.
  - apply order_by_sorted.
  - rewrite Ht. exact Hold.
Qed.

Lemma all_older_POST (s : Server) (c : string) (env : Env) (t : datetime) :
  all_older (now env) s -> now env < t ->
  all_older t (server (POST_api_data (DataItemCreate.mk c) env s)).
Proof.
  intros Hold Hlt. unfold all_older in *.
  destruct (POST_cases s c env) as [[_ Heq] | [_ [seq' [line [Heq _]]]]];
    rewrite Heq; cbn [server simple_data].
  - apply Forall_app. split.
    + eapply Forall_impl; [| exact Hold]. intro r. apply older_later. lia.
    + constructor; [| constructor]. unfold older, to_row, created. cbn. exact Hlt.
  - eapply Forall_impl; [| exact Hold]. intro r. apply older_later. lia.
Qed.

Lemma newest_first_of_rows (ds : list DataItem.t) :
  StronglySorted (fun a b => is_true (CreatedAtDesc.leb a b)) (map to_row ds) ->
  newest_first ds.
Proof.
  unfold newest_first.
  induction ds as [| d ds IH]; cbn [map]; intro H; [constructor |].
  inversion H as [| ? ? Hs Hall]; subst.
  constructor; [apply IH, Hs |].
  rewrite Forall_forall in *. intros d' Hd'.
  specialize (Hall (to_row d') (in_map to_row _ _ Hd')).
  unfold is_true, CreatedAtDesc.leb, to_row in Hall. cbn in Hall.
  apply Z.leb_le. exact Hall.
Qed.

Lemma stored_records_posted (s : Server) (c : string) (env : Env) :
  stored_records s -> stored_records (posted s c env).
Proof. apply stored_records_POST. Qed.

Lemma listing_defaults (env : Env) (s : Server) (rows : list SimpleData.t)
    (x : SimpleData.t) :
  stored_records s ->
  order_by_created_at_desc (simple_data s) = x :: rows ->
  exists ds,
    response (GET_api_data None None env s) = mkResponse 200 (Items ds) /\
    map to_row ds = x :: fetch 0 99 rows.
Proof.
  intros Hrec Horder.
  destruct (GET_records None None env s Hrec check_defaults) as [ds [Heq Hmap]].
  exists ds. rewrite Heq. split; [reflexivity |].
  rewrite Hmap. unfold selected. rewrite Horder. reflexivity.
Qed.

Lemma pk_eqb_true (k : Z) (r : SimpleData.t) :
  pk_eqb k r = true <-> SimpleData.id r = Some k.
Proof.
  unfold pk_eqb. destruct (SimpleData.id r) as [i|].
  - rewrite Z.eqb_eq. split; intro H; [subst; reflexivity | inversion H; reflexivity].
  - split; discriminate.
Qed.

Lemma delete_by_id_gone (k : Z) (rows : list SimpleData.t) :
  ~ In (Some k) (map SimpleData.id (delete_by_id k rows)).
Proof.
  intro Hin. apply in_map_iff in Hin. destruct Hin as [r [Hid Hr]].
  unfold delete_by_id in Hr. apply filter_In in Hr. destruct Hr as [_ Hneg].
  apply pk_eqb_true in Hid. rewrite Hid in Hneg. discriminate.
Qed.

Lemma delete_by_id_keeps (k : Z) (rows : list SimpleData.t) (r : SimpleData.t) :
  In r rows -> SimpleData.id r <> Some k -> In r (delete_by_id k rows).
Proof.
  intros Hin Hid. unfold delete_by_id. apply filter_In. split; [exact Hin |].
  destruct (pk_eqb k r) eqn:Hk; [| reflexivity].
  apply pk_eqb_true in Hk. contradiction.
Qed.

(** The records of a listing are stored records. *)
Lemma listing_is_stored (skip limit : option Z) (env : Env) (s : Server)
    (ds : list DataItem.t) (d : DataItem.t) :
  response (GET_api_data skip limit env s) = mkResponse 200 (Items ds) ->
  In d ds -> In (to_row d) (simple_data s).
Proof.
  intros Hresp Hd.
  destruct (check_offset_limit (param 0 skip) (param 100 limit)) as [e|] eqn:Hchk.
  - rewrite (GET_refused _ _ _ _ _ Hchk) in Hresp. discriminate.
  - rewrite (GET_accepted _ _ _ _ Hchk) in Hresp. cbn [response] in Hresp.
    destruct (validate_list (selected skip limit s)) as [ds'|] eqn:Hv;
      [| discriminate].
    inversion Hresp; subst ds'.
    apply validate_list_inv in Hv.
    eapply Permutation_in; [apply Permutation_sym, order_by_perm |].
    eapply fetch_incl. unfold selected in Hv. rewrite Hv.
    apply in_map. exact Hd.
Qed.

Lemma sorted_positions {A} (R : A -> A -> Prop) (l : list A) (i j : nat) (x y : A) :
  StronglySorted R l -> (i < j)%nat ->
  nth_error l i = Some x -> nth_error l j = Some y -> R x y.
Proof.
  intro Hs. revert i j.
  induction Hs as [| h l Hs IH Hall]; intros i j Hij Hi Hj.
  - destruct i; discriminate.
  - destruct j as [| j]; [lia |].
    destruct i as [| i]; cbn [nth_error] in Hi, Hj.
    + inversion Hi; subst. rewrite Forall_forall in Hall.
      apply Hall. eapply nth_error_In. exact Hj.
    + apply (IH i j); [lia | exact Hi | exact Hj].
Qed.

(** Whatever a listing answers is in descending order of created_at. *)
Lemma listing_newest_first (skip limit : option Z) (env : Env) (s : Server)
    (ds : list DataItem.t) :
  response (GET_api_data skip limit env s) = mkResponse 200 (Items ds) ->
  newest_first ds.
Proof.
  intro Hresp.
  destruct (check_offset_limit (param 0 skip) (param 100 limit)) as [e|] eqn:Hchk.
  - rewrite (GET_refused _ _ _ _ _ Hchk) in Hresp. discriminate.
  - rewrite (GET_accepted _ _ _ _ Hchk) in Hresp. cbn [response] in Hresp.
    destruct (validate_list (selected skip limit s)) as [ds'|] eqn:Hv;
      [| discriminate].
    inversion Hresp; subst ds'.
    apply validate_list_inv in Hv.
    apply newest_first_of_rows. rewrite <- Hv. unfold selected.
    apply fetch_sorted, order_by_sorted.
Qed.

Lemma fetch_all (count : Z) (rows : list SimpleData.t) :
  Z.of_nat (List.length rows) <= count -> fetch 0 count rows = rows.
Proof.
  intro Hlen. rewrite fetch_limit by lia. apply firstn_all2. lia.
Qed.

(** A record that was just created is in the default listing when it is
    the newest or when the table has at most a hundred rows. *)
Lemma created_is_listed (s : Server) (c : string) (env env' : Env) (r : DataItem.t) :
  stored_records s ->
  all_older (now env) s \/ (List.length (simple_data s) < 100)%nat ->
  response (POST_api_data (DataItemCreate.mk c) env s) = mkResponse 200 (Item r) ->
  exists ds,
    response (GET_api_data None None env' (posted s c env)) = mkResponse 200 (Items ds) /\
    In r ds /\
    (all_older (now env) s -> exists rest, ds = r :: rest).
Proof.
  intros Hrec Hcase Hresp.
  destruct (POST_created _ _ _ _ Hresp) as [_ Hsrv].
  destruct (GET_records None None env' (posted s c env)
              (stored_records_posted _ _ _ Hrec) check_defaults) as [ds [Hlist Hmap]].
  exists ds. rewrite Hlist. split; [reflexivity |].
  assert (Hfirst : all_older (now env) s -> exists rest, ds = r :: rest).
  { intro Hold.
    destruct (order_by_after_create s c env r Hold Hresp) as [_ [rest [Ho _]]].
    unfold selected in Hmap. unfold posted in Hmap at 1. rewrite Ho in Hmap.
    change (fetch (param 0 None) (param 100 None) (to_row r :: rest))
      with (to_row r :: fetch 0 99 rest) in Hmap.
    destruct (map_to_row_cons _ _ _ Hmap) as [ds' [Hds _]].
    exists ds'. exact Hds. }
  split; [| exact Hfirst].
  destruct Hcase as [Hold | Hsmall].
  - destruct (Hfirst Hold) as [rest ->]. left. reflexivity.
  - assert (Hin : In (to_row r) (map to_row ds)).
    { rewrite Hmap. unfold selected, posted. rewrite Hsrv. cbn [simple_data param].
      rewrite fetch_all.
      - eapply Permutation_in; [apply order_by_perm |].
        apply in_or_app. right. left. reflexivity.
      - rewrite <- (Permutation_length (order_by_perm _)).
        rewrite length_app. cbn [List.length]. lia. }
    apply in_map_iff in Hin. destruct Hin as [d [Hd Hin]].
    apply to_row_inj in Hd. subst d. exact Hin.
Qed.

(** With at most a hundred rows the default listing answers them all. *)
Lemma listing_everything (env : Env) (s : Server) :
  stored_records s -> (List.length (simple_data s) <= 100)%nat ->
  exists ds,
    response (GET_api_data None None env s) = mkResponse 200 (Items ds) /\
    Permutation (simple_data s) (map to_row ds).
Proof.
  intros Hrec Hlen.
  destruct (GET_records None None env s Hrec check_defaults) as [ds [Hlist Hmap]].
  exists ds. rewrite Hlist. split; [reflexivity |].
  rewrite Hmap. unfold selected. cbn [param]. rewrite fetch_all.
  - apply order_by_perm.
  - rewrite <- (Permutation_length (order_by_perm _)). lia.
Qed.

Lemma in_map_to_row (d : DataItem.t) (ds : list DataItem.t) :
  In (to_row d) (map to_row ds) -> In d ds.
Proof.
  intro Hin. apply in_map_iff in Hin. destruct Hin as [d' [Hd Hin]].
  apply to_row_inj in Hd. subst d'. exact Hin.
Qed.

(** In a descending listing the record with the later created_at stands
    before the other. *)
Lemma later_stands_first (ds : list DataItem.t) (x y : DataItem.t) (i j : nat) :
  newest_first ds ->
  DataItem.created_at x < DataItem.created_at y ->
  nth_error ds i = Some x -> nth_error ds j = Some y -> (j < i)%nat.
Proof.
  intros Hsorted Hlt Hi Hj.
  destruct (Nat.lt_trichotomy j i) as [Hji | [Hji | Hji]]; [exact Hji | |].
  - subst j. rewrite Hi in Hj. inversion Hj; subst. lia.
  - pose proof (sorted_positions _ _ _ _ _ _ Hsorted Hji Hi Hj) as Hle.
    cbn beta in Hle. lia.
Qed.

Lemma order_by_arrangement (s : Server) :
  arrangement s (order_by_created_at_desc (simple_data s)).
Proof. split; [apply order_by_perm | apply order_by_sorted]. Qed.

(** ** The claims *)

(** C1: for every create request with body [{content: c}], if the commit
    of the request goes through, the response is HTTP 200 with a record
    that has all three fields: its content is [c], its id is the value the
    store's sequence handed out and its created_at is the store's
    [now()]; they are the values of the row that was stored. *)
Theorem C1_create_returns_the_stored_record (s : Server) (c : string) (env : Env) :
  In Commit (session_events (POST_api_data (DataItemCreate.mk c) env s)) ->
  response (POST_api_data (DataItemCreate.mk c) env s) =
    mkResponse 200 (Item (DataItem.mk (simple_data_id_seq s + 1) c (now env))) /\
  simple_data (server (POST_api_data (DataItemCreate.mk c) env s)) =
    simple_data s ++
    [SimpleData.mk (Some (simple_data_id_seq s + 1)) (Some c) (Some (now env))].
Proof.
  intro Hcommit.
  destruct (POST_cases s c env) as [[_ Heq] | [_ [seq' [line [Heq _]]]]];
    rewrite Heq in *; cbn [response server session_events simple_data] in *.
  - split; reflexivity.
  - no_event Hcommit.
Qed.

Lemma C1_witness :
  In Commit (session_events (POST_api_data hello (quiet 5) create_all)) /\
  response (POST_api_data hello (quiet 5) create_all) =
    mkResponse 200 (Item (DataItem.mk 1 "hello" 5)).
Proof.
  assert (H : In Commit (session_events (POST_api_data hello (quiet 5) create_all)))
    by (vm_compute; auto).
  split; [exact H |].
  exact (proj1 (C1_create_returns_the_stored_record create_all "hello" (quiet 5) H)).
Defined.

(** C2: for every stored set of records and every skip and limit the
    store accepts, the list request answers records of the stored set in
    descending order of created_at. In particular, when record A is created
    and then record B (each by a request that answered 200, the store's
    clock reading later for B than for A): no listing, whatever its skip
    and limit, places A before B; and the listing with default parameters
    answers both, B before A, when the table had fewer than 99 rows or its
    rows are older than A, in which case the listing starts B, A. *)
Theorem C2_newest_first :
  (forall s skip limit env,
     stored_records s ->
     0 <= param 0 skip <= INT8_MAX -> 0 <= param 100 limit <= INT8_MAX ->
     exists ds,
       response (GET_api_data skip limit env s) = mkResponse 200 (Items ds) /\
       newest_first ds /\
       incl (map to_row ds) (simple_data s)) /\
  (forall s a b envA envB env ra rb skip limit ds i j,
     now envA < now envB ->
     response (POST_api_data (DataItemCreate.mk a) envA s) = mkResponse 200 (Item ra) ->
     response (POST_api_data (DataItemCreate.mk b) envB (posted s a envA)) =
       mkResponse 200 (Item rb) ->
     response (GET_api_data skip limit env (posted (posted s a envA) b envB)) =
       mkResponse 200 (Items ds) ->
     nth_error ds i = Some ra -> nth_error ds j = Some rb -> (j < i)%nat) /\
  (forall s a b envA envB env ra rb,
     stored_records s ->
     now envA < now envB ->
     all_older (now envA) s \/ (List.length (simple_data s) < 99)%nat ->
     response (POST_api_data (DataItemCreate.mk a) envA s) = mkResponse 200 (Item ra) ->
     response (POST_api_data (DataItemCreate.mk b) envB (posted s a envA)) =
       mkResponse 200 (Item rb) ->
     exists ds i j,
       response (GET_api_data None None env (posted (posted s a envA) b envB)) =
         mkResponse 200 (Items ds) /\
       nth_error ds j = Some rb /\ nth_error ds i = Some ra /\ (j < i)%nat /\
       (all_older (now envA) s -> exists rest, ds = rb :: ra :: rest)).
Proof.
  assert (Horder : forall s a b envA envB env ra rb skip limit ds i j,
     now envA < now envB ->
     response (POST_api_data (DataItemCreate.mk a) envA s) = mkResponse 200 (Item ra) ->
     response (POST_api_data (DataItemCreate.mk b) envB (posted s a envA)) =
       mkResponse 200 (Item rb) ->
     response (GET_api_data skip limit env (posted (posted s a envA) b envB)) =
       mkResponse 200 (Items ds) ->
     nth_error ds i = Some ra -> nth_error ds j = Some rb -> (j < i)%nat).
  { intros s a b envA envB env ra rb skip limit ds i j Hlt HrA HrB Hlist Hi Hj.
    destruct (POST_created _ _ _ _ HrA) as [HeqA _].
    destruct (POST_created _ _ _ _ HrB) as [HeqB _].
    apply (later_stands_first ds ra rb i j); try assumption.
    - eapply listing_newest_first. exact Hlist.
    - rewrite HeqA, HeqB. exact Hlt. }
  split; [| split; [exact Horder |]].
  - intros s skip limit env Hrec Hskip Hlimit.
    destruct (GET_records skip limit env s Hrec
                (check_offset_limit_ok _ _ Hskip Hlimit)) as [ds [Heq Hmap]].
    exists ds. rewrite Heq. split; [reflexivity |]. split.
    + apply newest_first_of_rows. rewrite Hmap. unfold selected.
      apply fetch_sorted, order_by_sorted.
    + rewrite Hmap. unfold selected. intros r Hr.
      apply fetch_incl in Hr.
      eapply Permutation_in; [apply Permutation_sym, order_by_perm | exact Hr].
  - intros s a b envA envB env ra rb Hrec Hlt Hcase HrA HrB.
    destruct (POST_created _ _ _ _ HrA) as [_ HsA].
    destruct (POST_created _ _ _ _ HrB) as [_ HsB].
    assert (Hrec2 : stored_records (posted (posted s a envA) b envB))
      by (repeat apply stored_records_posted; exact Hrec).
    assert (Hfirst : all_older (now envA) s ->
              exists ds rest,
                response (GET_api_data None None env (posted (posted s a envA) b envB)) =
                  mkResponse 200 (Items ds) /\ ds = rb :: ra :: rest).
    { intro Hold.
      destruct (order_by_after_create s a envA ra Hold HrA) as [HtA _].
      assert (Hold1 : all_older (now envB) (posted s a envA))
        by (apply all_older_POST; assumption).
      destruct (order_by_after_create (posted s a envA) b envB rb Hold1 HrB)
        as [HtB [restB [HoB [HpB HsortedB]]]].
      unfold posted in HpB at 1. rewrite HsA in HpB. cbn [simple_data] in HpB.
      destruct (newest_comes_first _ _ _ HpB HsortedB) as [restA [HeqA _]].
      { rewrite HtA. exact Hold. }
      subst restB.
      destruct (listing_defaults env _ _ _ Hrec2 HoB) as [ds [Hresp Hmap]].
      change (fetch 0 99 (to_row ra :: restA))
        with (to_row ra :: fetch 0 98 restA) in Hmap.
      destruct (map_to_row_cons _ _ _ Hmap) as [ds1 [Hds Hmap1]].
      destruct (map_to_row_cons _ _ _ Hmap1) as [ds2 [Hds1 _]].
      exists ds, ds2. split; [exact Hresp |]. rewrite Hds, Hds1. reflexivity. }
    destruct Hcase as [Hold | Hsmall].
    + destruct (Hfirst Hold) as [ds [rest [Hresp Hds]]].
      exists ds, 1%nat, 0%nat. rewrite Hds.
      split; [rewrite Hresp, Hds; reflexivity |].
      split; [reflexivity |]. split; [reflexivity |]. split; [lia |].
      intros _. exists rest. reflexivity.
    + destruct (listing_everything env _ Hrec2) as [ds [Hresp Hperm]].
      { unfold posted at 1. rewrite HsB. cbn [simple_data].
        unfold posted. rewrite HsA. cbn [simple_data].
        rewrite !length_app. cbn [List.length]. lia. }
      assert (HinB : In rb ds).
      { apply in_map_to_row. eapply Permutation_in; [exact Hperm |].
        unfold posted at 1. rewrite HsB. cbn [simple_data].
        apply in_or_app. right. left. reflexivity. }
      assert (HinA : In ra ds).
      { apply in_map_to_row. eapply Permutation_in; [exact Hperm |].
        unfold posted at 1. rewrite HsB. cbn [simple_data].
        unfold posted. rewrite HsA. cbn [simple_data].
        apply in_or_app. left. apply in_or_app. right. left. reflexivity. }
      destruct (In_nth_error _ _ HinB) as [j Hj].
      destruct (In_nth_error _ _ HinA) as [i Hi].
      exists ds, i, j. split; [exact Hresp |]. split; [exact Hj |].
      split; [exact Hi |]. split.
      * exact (Horder s a b envA envB env ra rb None None ds i j
                 Hlt HrA HrB Hresp Hi Hj).
      * intro Hold. destruct (Hfirst Hold) as [ds' [rest [Hresp' Hds']]].
        rewrite Hresp in Hresp'. inversion Hresp'; subst ds'.
        exists rest. reflexivity.
Qed.

Lemma C2_witness :
  10 < 20 /\
  exists ds i j,
    response (GET_api_data None None (quiet 30)
                (posted (posted create_all "a" (quiet 10)) "b" (quiet 20))) =
      mkResponse 200 (Items ds) /\
    nth_error ds j = Some (DataItem.mk 2 "b" 20) /\
    nth_error ds i = Some (DataItem.mk 1 "a" 10) /\
    (j < i)%nat.
Proof.
  split; [reflexivity |].
  destruct (proj2 (proj2 C2_newest_first) create_all "a" "b"
              (quiet 10) (quiet 20) (quiet 30)
              (DataItem.mk 1 "a" 10) (DataItem.mk 2 "b" 20))
    as [ds [i [j [Hresp [Hj [Hi [Hji _]]]]]]].
  - constructor.
  - reflexivity.
  - left. constructor.
  - reflexivity.
  - reflexivity.
  - exists ds, i, j. repeat split; assumption.
Defined.

(** C3 does not hold as the specification states it: a positive limit
    beyond the store's bigint is refused by the store, and the request is
    answered 500. *)
Lemma C3_counterexample :
  ~ (forall s skip limit env,
       stored_records s -> 0 <= skip -> 0 < limit ->
       exists ds,
         response (GET_api_data (Some skip) (Some limit) env s) =
           mkResponse 200 (Items ds) /\
         Z.of_nat (List.length ds) <= limit).
Proof.
  intro H.
  destruct (H after_three 0 9223372036854775808 (quiet 40)) as [ds [Hresp _]].
  - apply reachable_invariant, reachable_after_three.
  - lia.
  - lia.
  - vm_compute in Hresp. discriminate.
Qed.

(** C3, amended: for every stored set of records, every skip from 0 to
    2^63-1 and every limit from 1 to 2^63-1, the list request answers the
    records that remain of a descending arrangement of the stored records
    (the order among records of one created_at is the store's) after its
    first skip records, at most limit of them; a request without skip has
    skip 0 and one without limit has limit 100; and after three records
    are created at clock readings that follow the order of creation, the
    listing with limit=1 and skip=1 answers exactly the second of the
    three. *)
Theorem C3_offset_and_limit :
  (forall s skip limit env,
     stored_records s ->
     0 <= param 0 skip <= INT8_MAX -> 0 < param 100 limit <= INT8_MAX ->
     exists ds rows,
       response (GET_api_data skip limit env s) = mkResponse 200 (Items ds) /\
       arrangement s rows /\
       map to_row ds =
         firstn (Z.to_nat (param 100 limit))
           (skipn (Z.to_nat (param 0 skip)) rows) /\
       Z.of_nat (List.length ds) <= param 100 limit) /\
  (forall s env,
     GET_api_data None None env s = GET_api_data (Some 0) (Some 100) env s) /\
  (forall s c1 c2 c3 e1 e2 e3 env r1 r2 r3,
     stored_records s ->
     all_older (now e1) s -> now e1 < now e2 -> now e2 < now e3 ->
     response (POST_api_data (DataItemCreate.mk c1) e1 s) = mkResponse 200 (Item r1) ->
     response (POST_api_data (DataItemCreate.mk c2) e2 (posted s c1 e1)) =
       mkResponse 200 (Item r2) ->
     response (POST_api_data (DataItemCreate.mk c3) e3 (posted (posted s c1 e1) c2 e2)) =
       mkResponse 200 (Item r3) ->
     response (GET_api_data (Some 1) (Some 1) env
                 (posted (posted (posted s c1 e1) c2 e2) c3 e3)) =
     mkResponse 200 (Items [r2])).
Proof.
  split; [| split].
  - intros s skip limit env Hrec Hskip Hlimit.
    assert (Hchk : check_offset_limit (param 0 skip) (param 100 limit) = None)
      by (apply check_offset_limit_ok; lia).
    destruct (GET_records skip limit env s Hrec Hchk) as [ds [Heq Hmap]].
    exists ds, (order_by_created_at_desc (simple_data s)).
    rewrite Heq. split; [reflexivity |].
    split; [apply order_by_arrangement |]. split.
    + rewrite Hmap. unfold selected. apply fetch_spec; lia.
    + rewrite <- (length_map to_row), Hmap. unfold selected.
      apply fetch_length. lia.
  - reflexivity.
  - intros s c1 c2 c3 e1 e2 e3 env r1 r2 r3 Hrec Hold H12 H23 Hr1 Hr2 Hr3.
    destruct (order_by_after_create s c1 e1 r1 Hold Hr1) as [Ht1 _].
    destruct (POST_created _ _ _ _ Hr1) as [_ Hs1].
    assert (Hold1 : all_older (now e2) (posted s c1 e1))
      by (apply all_older_POST; assumption).
    destruct (order_by_after_create _ c2 e2 r2 Hold1 Hr2) as [Ht2 _].
    destruct (POST_created _ _ _ _ Hr2) as [_ Hs2].
    assert (Hold2 : all_older (now e3) (posted (posted s c1 e1) c2 e2))
      by (apply all_older_POST; assumption).
    destruct (order_by_after_create _ c3 e3 r3 Hold2 Hr3)
      as [Ht3 [rest3 [Ho3 [Hp3 Hsorted3]]]].
    unfold posted in Hp3 at 1. rewrite Hs2 in Hp3. cbn [simple_data] in Hp3.
    destruct (newest_comes_first _ _ _ Hp3 Hsorted3) as [rest2 [Heq2 [Hp2 Hsorted2]]].
    { rewrite Ht2. exact Hold1. }
    unfold posted in Hp2 at 1. rewrite Hs1 in Hp2. cbn [simple_data] in Hp2.
    destruct (newest_comes_first _ _ _ Hp2 Hsorted2) as [rest1 [Heq1 _]].
    { rewrite Ht1. exact Hold. }
    subst rest3 rest2.
    assert (Hrec3 : stored_records (posted (posted (posted s c1 e1) c2 e2) c3 e3))
      by (repeat apply stored_records_posted; exact Hrec).
    destruct (GET_records (Some 1) (Some 1) env _ Hrec3 eq_refl) as [ds [Heq Hmap]].
    rewrite Heq. cbn [response].
    unfold selected in Hmap. unfold posted in Hmap at 1. rewrite Ho3 in Hmap.
    change (fetch (param 0 (Some 1)) (param 100 (Some 1))
              (to_row r3 :: to_row r2 :: to_row r1 :: rest1))
      with [to_row r2] in Hmap.
    destruct (map_to_row_cons _ _ _ Hmap) as [ds' [Hds Hnil]].
    apply map_to_row_nil in Hnil. subst. reflexivity.
Qed.

Lemma C3_witness :
  10 < 20 /\ 20 < 30 /\
  response (GET_api_data (Some 1) (Some 1) (quiet 40) after_three) =
    mkResponse 200 (Items [DataItem.mk 2 "b" 20]).
Proof.
  split; [reflexivity |]. split; [reflexivity |].
  apply (proj2 (proj2 C3_offset_and_limit) create_all "a" "b" "c"
           (quiet 10) (quiet 20) (quiet 30) (quiet 40)
           (DataItem.mk 1 "a" 10) (DataItem.mk 2 "b" 20) (DataItem.mk 3 "c" 30)).
  - constructor.
  - constructor.
  - reflexivity.
  - reflexivity.
  - reflexivity.
  - reflexivity.
  - reflexivity.
Defined.

(** C4 does not hold as the specification states it: the id is stored,
    the commit of the delete raises, the answer is 500 and the record is
    still stored. *)
Lemma C4_counterexample :
  ~ (forall s item_id env,
       In (Some item_id) (map SimpleData.id (simple_data s)) ->
       status (response (DELETE_api_data item_id env s)) = 200 /\
       ~ In (Some item_id)
           (map SimpleData.id (simple_data (server (DELETE_api_data item_id env s))))).
Proof.
  intro H.
  destruct (H after_three 2 (broken 40)) as [Hstatus _].
  - vm_compute. auto.
  - vm_compute in Hstatus. discriminate.
Qed.

(** C4, amended: for every id that a stored record has, if the commit of
    the delete request goes through, the response is HTTP 200 with a
    message that contains the id in decimal, no stored record has the id
    any longer, the records with other ids are all still stored, and no
    later listing answers a record with that id. *)
Theorem C4_delete_present (s : Server) (item_id : Z) (env : Env) :
  In (Some item_id) (map SimpleData.id (simple_data s)) ->
  In Commit (session_events (DELETE_api_data item_id env s)) ->
  response (DELETE_api_data item_id env s) =
    mkResponse 200 (MessageBody (deleted_message item_id)) /\
  (exists before after,
     deleted_message item_id = (before ++ str_Z item_id ++ after)%string) /\
  ~ In (Some item_id)
      (map SimpleData.id (simple_data (server (DELETE_api_data item_id env s)))) /\
  (forall r, In r (simple_data s) -> SimpleData.id r <> Some item_id ->
             In r (simple_data (server (DELETE_api_data item_id env s)))) /\
  (forall skip limit env' ds,
     response (GET_api_data skip limit env' (server (DELETE_api_data item_id env s))) =
       mkResponse 200 (Items ds) ->
     ~ In item_id (map DataItem.id ds)).
Proof.
  intros Hpresent Hcommit.
  assert (Hgone : forall s',
            s' = mkServer (delete_by_id item_id (simple_data s))
                          (simple_data_id_seq s) (stdout s) ->
            ~ In (Some item_id) (map SimpleData.id (simple_data s'))).
  { intros s' ->. apply delete_by_id_gone. }
  destruct (DELETE_cases item_id env s)
    as [[Habsent Heq] | [[_ [_ Heq]] | [_ [_ [line Heq]]]]];
    rewrite Heq in *; cbn [response server session_events] in *.
  - apply select_by_id_none in Habsent. contradiction.
  - split; [reflexivity |]. split; [| split; [| split]].
    + eexists _, _. unfold deleted_message. reflexivity.
    + apply Hgone. reflexivity.
    + intros r Hr Hid. cbn [simple_data]. apply delete_by_id_keeps; assumption.
    + intros skip limit env' ds Hlist Hin.
      apply in_map_iff in Hin. destruct Hin as [d [Hid Hd]].
      pose proof (listing_is_stored _ _ _ _ _ _ Hlist Hd) as Hstored.
      apply (Hgone _ eq_refl).
      apply in_map_iff. exists (to_row d). split; [| exact Hstored].
      unfold to_row. cbn [SimpleData.id]. rewrite Hid. reflexivity.
  - no_event Hcommit.
Qed.

Lemma C4_witness :
  In (Some 2) (map SimpleData.id (simple_data after_three)) /\
  In Commit (session_events (DELETE_api_data 2 (quiet 40) after_three)) /\
  response (DELETE_api_data 2 (quiet 40) after_three) =
    mkResponse 200 (MessageBody (deleted_message 2)) /\
  ~ In (Some 2)
      (map SimpleData.id (simple_data (server (DELETE_api_data 2 (quiet 40) after_three)))).
Proof.
  assert (Hp : In (Some 2) (map SimpleData.id (simple_data after_three)))
    by (vm_compute; auto).
  assert (Hc : In Commit (session_events (DELETE_api_data 2 (quiet 40) after_three)))
    by (vm_compute; auto).
  destruct (C4_delete_present after_three 2 (quiet 40) Hp Hc) as [Hr [_ [Hgone _]]].
  repeat split; assumption.
Defined.

(** C5: for every id that no stored record has, the delete request is
    answered HTTP 404 with the fixed "not found" detail, the server's state
    is what it was, and the session saw one query and neither a commit nor
    a rollback. *)
Theorem C5_delete_absent_is_404 (s : Server) (item_id : Z) (env : Env) :
  ~ In (Some item_id) (map SimpleData.id (simple_data s)) ->
  response (DELETE_api_data item_id env s) = mkResponse 404 (DetailBody not_found) /\
  server (DELETE_api_data item_id env s) = s /\
  session_events (DELETE_api_data item_id env s) = [Query; Close].
Proof.
  intro Habsent. apply select_by_id_none in Habsent.
  rewrite (DELETE_absent _ env _ Habsent). repeat split.
Qed.

Lemma C5_witness :
  ~ In (Some 7) (map SimpleData.id (simple_data after_three)) /\
  response (DELETE_api_data 7 (broken 40) after_three) =
    mkResponse 404 (DetailBody not_found) /\
  server (DELETE_api_data 7 (broken 40) after_three) = after_three.
Proof.
  assert (H : ~ In (Some 7) (map SimpleData.id (simple_data after_three))).
  { vm_compute. intros [H | [H | [H | []]]]; discriminate. }
  split; [exact H |].
  destruct (C5_delete_absent_is_404 after_three 7 (broken 40) H) as [Hr [Hs _]].
  split; [exact Hr | exact Hs].
Defined.

(** C6: for every create or delete request whose commit raises, the
    session is rolled back after the failed commit, the stored set is what
    it was before the request, and the response is HTTP 500 with the
    route's fixed detail: the same text whatever the error was. *)
Theorem C6_failed_commit_rolls_back (s : Server) (env : Env) :
  (forall item,
     In CommitRaised (session_events (POST_api_data item env s)) ->
     response (POST_api_data item env s) = mkResponse 500 (DetailBody create_failed) /\
     simple_data (server (POST_api_data item env s)) = simple_data s /\
     session_events (POST_api_data item env s) = [CommitRaised; Rollback; Close]) /\
  (forall item_id,
     In CommitRaised (session_events (DELETE_api_data item_id env s)) ->
     response (DELETE_api_data item_id env s) = mkResponse 500 (DetailBody delete_failed) /\
     simple_data (server (DELETE_api_data item_id env s)) = simple_data s /\
     session_events (DELETE_api_data item_id env s) =
       [Query; CommitRaised; Rollback; Close]).
Proof.
  split.
  - intros [c] Hraised.
    destruct (POST_cases s c env) as [[_ Heq] | [_ [seq' [line [Heq _]]]]];
      rewrite Heq in *; cbn [response server session_events simple_data] in *.
    + no_event Hraised.
    + repeat split.
  - intros item_id Hraised.
    destruct (DELETE_cases item_id env s)
      as [[_ Heq] | [[_ [_ Heq]] | [_ [_ [line Heq]]]]];
      rewrite Heq in *; cbn [response server session_events simple_data] in *.
    + no_event Hraised.
    + no_event Hraised.
    + repeat split.
Qed.

Lemma C6_witness :
  In CommitRaised (session_events (POST_api_data hello (broken 40) after_three)) /\
  In CommitRaised (session_events (DELETE_api_data 2 (broken 40) after_three)) /\
  response (POST_api_data hello (broken 40) after_three) =
    mkResponse 500 (DetailBody create_failed) /\
  response (DELETE_api_data 2 (broken 40) after_three) =
    mkResponse 500 (DetailBody delete_failed) /\
  simple_data (server (DELETE_api_data 2 (broken 40) after_three)) =
    simple_data after_three.
Proof.
  assert (Hc : In CommitRaised
                 (session_events (POST_api_data hello (broken 40) after_three)))
    by (vm_compute; auto).
  assert (Hd : In CommitRaised
                 (session_events (DELETE_api_data 2 (broken 40) after_three)))
    by (vm_compute; auto).
  destruct (C6_failed_commit_rolls_back after_three (broken 40)) as [Hpost Hdel].
  destruct (Hpost hello Hc) as [Hr1 _].
  destruct (Hdel 2 Hd) as [Hr2 [Hs2 _]].
  repeat split; assumption.
Defined.

(** C7 does not hold as the specification states it: the store refuses a
    negative skip and the request is answered 500. *)
Lemma C7_counterexample :
  ~ (forall s skip limit env,
       status (response (GET_api_data (Some skip) (Some limit) env s)) = 200).
Proof.
  intro H. specialize (H create_all (-1) 100 (quiet 0)).
  vm_compute in H. discriminate.
Qed.

(** C7, amended: for every stored set of records (every stored row
    holding an id, a content and a created_at) and every skip and limit,
    the two numbers reach the store as they are. When both are from 0 to
    2^63-1 the response is HTTP 200 with the records that skip and limit
    select from a descending arrangement of the stored records, and the
    empty sequence when no record is stored or skip is at least the number
    of stored records. When one of them is negative or beyond 2^63-1 the
    store refuses the statement and the response is HTTP 500. *)
Theorem C7_list_passes_skip_and_limit (s : Server) (skip limit : option Z) (env : Env) :
  stored_records s ->
  (0 <= param 0 skip <= INT8_MAX -> 0 <= param 100 limit <= INT8_MAX ->
   exists ds rows,
     response (GET_api_data skip limit env s) = mkResponse 200 (Items ds) /\
     arrangement s rows /\
     map to_row ds = fetch (param 0 skip) (param 100 limit) rows /\
     (simple_data s = [] -> ds = []) /\
     (Z.of_nat (List.length (simple_data s)) <= param 0 skip -> ds = [])) /\
  (param 0 skip < 0 \/ INT8_MAX < param 0 skip \/
   param 100 limit < 0 \/ INT8_MAX < param 100 limit ->
   response (GET_api_data skip limit env s) = internal_server_error).
Proof.
  intro Hrec. split.
  - intros Hskip Hlimit.
    destruct (GET_records skip limit env s Hrec
                (check_offset_limit_ok _ _ Hskip Hlimit)) as [ds [Heq Hmap]].
    exists ds, (order_by_created_at_desc (simple_data s)).
    rewrite Heq. split; [reflexivity |].
    split; [apply order_by_arrangement |]. split; [exact Hmap |].
    assert (Hbeyond : Z.of_nat (List.length (simple_data s)) <= param 0 skip -> ds = []).
    { intro Hlen. apply map_to_row_nil. rewrite Hmap. unfold selected.
      apply fetch_beyond.
      rewrite <- (Permutation_length (order_by_perm (simple_data s))). exact Hlen. }
    split; [| exact Hbeyond].
    intro Hempty. apply Hbeyond. rewrite Hempty. simpl. lia.
  - intro Hbad.
    destruct (check_offset_limit_refused _ _ Hbad) as [e He].
    rewrite (GET_refused _ _ env s _ He). reflexivity.
Qed.

Lemma C7_witness :
  stored_records after_three /\
  (exists ds,
     response (GET_api_data (Some 5) None (quiet 40) after_three) =
       mkResponse 200 (Items ds) /\ ds = []) /\
  response (GET_api_data (Some (-1)) None (quiet 40) after_three) =
    internal_server_error.
Proof.
  assert (Hrec : stored_records after_three).
  { unfold stored_records, is_record. vm_compute.
    repeat (constructor; [discriminate |]). constructor. }
  destruct (C7_list_passes_skip_and_limit after_three (Some 5) None (quiet 40) Hrec)
    as [Hok _].
  destruct (C7_list_passes_skip_and_limit after_three (Some (-1)) None (quiet 40) Hrec)
    as [_ Hbad].
  split; [exact Hrec |]. split.
  - destruct Hok as [ds [rows [Hresp [_ [_ [_ Hbeyond]]]]]].
    + split; [intro H; discriminate | intro H; discriminate].
    + split; [intro H; discriminate | intro H; discriminate].
    + exists ds. split; [exact Hresp |]. apply Hbeyond. intro H; discriminate.
  - apply Hbad. left. reflexivity.
Defined.

(** C8: in every state the routes can reach from the empty table, every
    stored record has an id and a content; and each of the three routes
    keeps that property of the stored set. *)
Theorem C8_stored_records_have_id_and_content :
  (forall s, reachable s -> Forall has_id_and_content (simple_data s)) /\
  (forall s, Forall has_id_and_content (simple_data s) ->
     (forall item env,
        Forall has_id_and_content (simple_data (server (POST_api_data item env s)))) /\
     (forall skip limit env,
        Forall has_id_and_content
          (simple_data (server (GET_api_data skip limit env s)))) /\
     (forall item_id env,
        Forall has_id_and_content
          (simple_data (server (DELETE_api_data item_id env s))))).
Proof.
  split.
  - intros s Hreach. apply reachable_invariant in Hreach.
    destruct Hreach as [Hrec _ _ _].
    eapply Forall_impl; [| exact Hrec]. apply is_record_has_id_and_content.
  - intros s Hs. split; [| split].
    + intros [c] env.
      destruct (POST_cases s c env) as [[_ Heq] | [_ [seq' [line [Heq _]]]]];
        rewrite Heq; cbn [server simple_data]; [| exact Hs].
      apply Forall_app. split; [exact Hs |].
      constructor; [| constructor].
      apply is_record_has_id_and_content, is_record_to_row.
    + intros skip limit env.
      destruct (GET_server skip limit env s) as [Heq _]. rewrite Heq. exact Hs.
    + intros item_id env.
      destruct (DELETE_cases item_id env s)
        as [[_ Heq] | [[_ [_ Heq]] | [_ [_ [line Heq]]]]];
        rewrite Heq; cbn [server simple_data]; try exact Hs.
      apply Forall_filter, Hs.
Qed.

Lemma C8_witness :
  reachable after_three /\ Forall has_id_and_content (simple_data after_three).
Proof.
  split; [exact reachable_after_three |].
  exact (proj1 C8_stored_records_have_id_and_content after_three reachable_after_three).
Defined.

(** C9: for every string [c], when a create request with content [c]
    reaches, at the instant [t_call], a store the routes can reach, the
    store's clock in its transaction reads no earlier than [t_call], and
    the request is answered 200 with a record, then the listing that
    follows answers that record (the table having at most a hundred rows,
    or the clock reading later than the created_at of every stored record,
    in which case the record comes first): its content is [c], its id is
    positive and its created_at is not earlier than [t_call]. *)
Theorem C9_create_then_list (s : Server) (c : string) (env env' : Env)
    (t_call : datetime) (r : DataItem.t) :
  reachable s ->
  t_call <= now env ->
  all_older (now env) s \/ (List.length (simple_data s) < 100)%nat ->
  response (POST_api_data (DataItemCreate.mk c) env s) = mkResponse 200 (Item r) ->
  exists ds,
    response (GET_api_data None None env' (posted s c env)) =
      mkResponse 200 (Items ds) /\
    In r ds /\
    (all_older (now env) s -> exists rest, ds = r :: rest) /\
    DataItem.content r = c /\
    0 < DataItem.id r /\
    t_call <= DataItem.created_at r.
Proof.
  intros Hreach Hcall Hcase Hresp.
  destruct (reachable_invariant s Hreach) as [Hrec Hseq _ _].
  destruct (created_is_listed s c env env' r Hrec Hcase Hresp)
    as [ds [Hlist [Hin Hfirst]]].
  destruct (POST_created _ _ _ _ Hresp) as [Hr _].
  exists ds. split; [exact Hlist |]. split; [exact Hin |]. split; [exact Hfirst |].
  subst r. unfold created. cbn [DataItem.content DataItem.id DataItem.created_at].
  repeat split; lia.
Qed.

Lemma C9_witness :
  reachable after_three /\ 35 <= 40 /\
  exists ds,
    response (GET_api_data None None (quiet 50) (posted after_three "hello" (quiet 40))) =
      mkResponse 200 (Items ds) /\
    In (DataItem.mk 4 "hello" 40) ds.
Proof.
  split; [exact reachable_after_three |].
  assert (Hcall : 35 <= 40) by (intro H; discriminate).
  split; [exact Hcall |].
  destruct (C9_create_then_list after_three "hello" (quiet 40) (quiet 50) 35
              (DataItem.mk 4 "hello" 40) reachable_after_three Hcall)
    as [ds [Hlist [Hin _]]].
  - right. vm_compute. lia.
  - reflexivity.
  - exists ds. split; [exact Hlist | exact Hin].
Defined.

(** C10: for every state and every skip and limit, a list request leaves
    the server's state as it was: its session sees the one query, run or
    refused, and no commit. *)
Theorem C10_list_changes_nothing (s : Server) (skip limit : option Z) (env : Env) :
  server (GET_api_data skip limit env s) = s /\
  ~ In Commit (session_events (GET_api_data skip limit env s)) /\
  (session_events (GET_api_data skip limit env s) = [Query; Close] \/
   session_events (GET_api_data skip limit env s) = [QueryRaised; Close]).
Proof.
  destruct (GET_server skip limit env s) as [Hs Hev].
  split; [exact Hs |]. split; [| exact Hev].
  destruct Hev as [Hev | Hev]; rewrite Hev; intro H; no_event H.
Qed.

(** ** Further properties of the routes *)

Lemma POST_log (s : Server) (c : string) (env : Env) :
  insertable s c env = false ->
  exists seq' e,
    POST_api_data (DataItemCreate.mk c) env s =
    mkOutcome (mkResponse 500 (DetailBody create_failed))
      (mkServer (simple_data s) seq' (stdout s ++ [("DB 저장 오류: " ++ e)%string]))
      [CommitRaised; Rollback; Close] /\
    (forall e', fault env = StatementFault e' -> e = e').
Proof.
  intro Hins.
  unfold POST_api_data, request, get_db, create_data_entry, bind, try_except,
    SimpleData_init, db_add, db_commit, db_rollback, print, raise, modify, ret.
  cbn [SessionLocal heap new deleted srv events with_heap with_pending app
       List.length DataItemCreate.content].
  unfold insertable in Hins.
  destruct (fault env) as [| e | e] eqn:Hf.
  - cbn [flush_new nth_error]. rewrite insert_transient.
    simpl andb in Hins.
    destruct (has_nul c).
    { eexists _, _. split; [reflexivity | discriminate]. }
    destruct (Z.leb_spec INT4_MAX (simple_data_id_seq s)) as [Hmax | Hmax].
    { eexists _, _. split; [reflexivity | discriminate]. }
    destruct (select_by_id (simple_data_id_seq s + 1) (simple_data s)).
    { eexists _, _. split; [reflexivity | discriminate]. }
    apply Z.ltb_lt in Hmax. rewrite Hmax in Hins. discriminate.
  - exists (simple_data_id_seq s), e. split; [reflexivity |].
    intros e' He'. inversion He'. reflexivity.
  - cbn [flush_new nth_error]. rewrite insert_transient.
    destruct (has_nul c).
    { eexists _, _. split; [reflexivity | discriminate]. }
    destruct (INT4_MAX <=? simple_data_id_seq s).
    { eexists _, _. split; [reflexivity | discriminate]. }
    destruct (select_by_id (simple_data_id_seq s + 1) (simple_data s)).
    { eexists _, _. split; [reflexivity | discriminate]. }
    eexists _, _. split; [reflexivity | discriminate].
Qed.

Lemma DELETE_log (item_id : Z) (env : Env) (s : Server) (r : SimpleData.t) :
  select_by_id item_id (simple_data s) = Some r ->
  fault env <> NoFault ->
  exists e,
    (fault env = StatementFault e \/ fault env = CommitFault e) /\
    DELETE_api_data item_id env s =
    mkOutcome (mkResponse 500 (DetailBody delete_failed))
      (mkServer (simple_data s) (simple_data_id_seq s)
                (stdout s ++ [("DB 삭제 오류: " ++ e)%string]))
      [Query; CommitRaised; Rollback; Close].
Proof.
  intros H Hf.
  unfold DELETE_api_data, request, get_db, delete_data_entry, bind, try_except,
    query_filter_id_first, db_delete, db_commit, db_rollback, print, raise,
    modify, ret.
  cbn [SessionLocal srv]. rewrite H.
  cbn [SessionLocal heap new deleted srv events with_heap with_pending log_event
       app List.length].
  destruct (fault env) as [| e | e]; [elim Hf; reflexivity | |];
    exists e; (split; [auto | reflexivity]).
Qed.

Lemma select_by_id_present (k : Z) (rows : list SimpleData.t) :
  select_by_id k rows <> None -> exists r, select_by_id k rows = Some r.
Proof.
  destruct (select_by_id k rows) as [r|]; [eauto | intro H; elim H; reflexivity].
Qed.

(** X1: whatever the request and however its handler ends (a return, an
    HTTPException, an exception of the store), the session that [get_db]
    opened is closed, once, and nothing is done with it afterwards. *)
Theorem X1_session_is_closed_once (rq : Request) (env : Env) (s : Server) :
  exists before,
    session_events (handle rq env s) = before ++ [Close] /\ ~ In Close before.
Proof.
  destruct rq as [[c] | skip limit | item_id]; cbn [handle].
  - destruct (POST_cases s c env) as [[_ Heq] | [_ [seq' [line [Heq _]]]]];
      rewrite Heq; cbn [session_events].
    + exists [Commit; Refresh]. split; [reflexivity | intro H; no_event H].
    + exists [CommitRaised; Rollback]. split; [reflexivity | intro H; no_event H].
  - destruct (GET_server skip limit env s) as [_ [Hev | Hev]]; rewrite Hev.
    + exists [Query]. split; [reflexivity | intro H; no_event H].
    + exists [QueryRaised]. split; [reflexivity | intro H; no_event H].
  - destruct (DELETE_cases item_id env s)
      as [[_ Heq] | [[_ [_ Heq]] | [_ [_ [line Heq]]]]];
      rewrite Heq; cbn [session_events].
    + exists [Query]. split; [reflexivity | intro H; no_event H].
    + exists [Query; Commit]. split; [reflexivity | intro H; no_event H].
    + exists [Query; CommitRaised; Rollback].
      split; [reflexivity | intro H; no_event H].
Qed.

(** X2: the statuses a route can answer, on any table (rows that
    [DataItem] rejects included): a create answers 200 or 500, a listing
    200 or 500, a delete 200, 404 or 500. *)
Theorem X2_statuses_of_the_routes (env : Env) (s : Server) :
  (forall item,
     status (response (POST_api_data item env s)) = 200 \/
     status (response (POST_api_data item env s)) = 500) /\
  (forall skip limit,
     status (response (GET_api_data skip limit env s)) = 200 \/
     status (response (GET_api_data skip limit env s)) = 500) /\
  (forall item_id,
     status (response (DELETE_api_data item_id env s)) = 200 \/
     status (response (DELETE_api_data item_id env s)) = 404 \/
     status (response (DELETE_api_data item_id env s)) = 500).
Proof.
  split; [| split].
  - intros [c].
    destruct (POST_cases s c env) as [[_ Heq] | [_ [seq' [line [Heq _]]]]];
      rewrite Heq; [left | right]; reflexivity.
  - intros skip limit.
    destruct (check_offset_limit (param 0 skip) (param 100 limit)) as [e|] eqn:Hchk.
    + rewrite (GET_refused _ _ _ _ _ Hchk). right. reflexivity.
    + rewrite (GET_accepted _ _ _ _ Hchk). cbn [response].
      destruct (validate_list (selected skip limit s)); [left | right]; reflexivity.
  - intro item_id.
    destruct (DELETE_cases item_id env s)
      as [[_ Heq] | [[_ [_ Heq]] | [_ [_ [line Heq]]]]];
      rewrite Heq; [right; left | left | right; right]; reflexivity.
Qed.

(** X3: the error of a failed commit goes to the standard output and to
    nothing else. A create or delete whose commit raises prints one line,
    the route's prefix followed by the text of the exception (for a delete,
    and for a create whose statement the store refused, the text the driver
    gave); a request whose commit does not raise prints nothing. *)
Theorem X3_the_error_is_printed (env : Env) (s : Server) :
  (forall item,
     In CommitRaised (session_events (POST_api_data item env s)) ->
     exists e,
       stdout (server (POST_api_data item env s)) =
         stdout s ++ [("DB 저장 오류: " ++ e)%string] /\
       (forall e', fault env = StatementFault e' -> e = e')) /\
  (forall item_id,
     In CommitRaised (session_events (DELETE_api_data item_id env s)) ->
     exists e,
       (fault env = StatementFault e \/ fault env = CommitFault e) /\
       stdout (server (DELETE_api_data item_id env s)) =
         stdout s ++ [("DB 삭제 오류: " ++ e)%string]) /\
  (forall rq,
     ~ In CommitRaised (session_events (handle rq env s)) ->
     stdout (server (handle rq env s)) = stdout s).
Proof.
  split; [| split].
  - intros [c] Hraised.
    destruct (insertable s c env) eqn:Hins.
    + rewrite (POST_success _ _ _ Hins) in Hraised. cbn [session_events] in Hraised.
      no_event Hraised.
    + destruct (POST_log _ _ _ Hins) as [seq' [e [Heq He]]].
      exists e. rewrite Heq. split; [reflexivity | exact He].
  - intros item_id Hraised.
    destruct (DELETE_cases item_id env s)
      as [[_ Heq] | [[_ [_ Heq]] | [Hsel [Hf _]]]].
    + rewrite Heq in Hraised. cbn [session_events] in Hraised. no_event Hraised.
    + rewrite Heq in Hraised. cbn [session_events] in Hraised. no_event Hraised.
    + destruct (select_by_id_present _ _ Hsel) as [r Hr].
      destruct (DELETE_log _ _ _ _ Hr Hf) as [e [He Heq]].
      exists e. rewrite Heq. split; [exact He | reflexivity].
  - intros rq Hquiet. destruct rq as [[c] | skip limit | item_id]; cbn [handle] in *.
    + destruct (POST_cases s c env) as [[_ Heq] | [_ [seq' [line [Heq _]]]]];
        rewrite Heq in *; cbn [session_events server stdout] in *;
        [reflexivity |].
      elim Hquiet. left. reflexivity.
    + destruct (GET_server skip limit env s) as [Heq _]. rewrite Heq. reflexivity.
    + destruct (DELETE_cases item_id env s)
        as [[_ Heq] | [[_ [_ Heq]] | [_ [_ [line Heq]]]]];
        rewrite Heq in *; cbn [session_events server stdout] in *;
        try reflexivity.
      elim Hquiet. right. left. reflexivity.
Qed.

Lemma X3_witness :
  In CommitRaised (session_events (DELETE_api_data 2 (broken 40) after_three)) /\
  exists e,
    stdout (server (DELETE_api_data 2 (broken 40) after_three)) =
      stdout after_three ++ [("DB 삭제 오류: " ++ e)%string].
Proof.
  assert (H : In CommitRaised
                (session_events (DELETE_api_data 2 (broken 40) after_three)))
    by (vm_compute; auto).
  split; [exact H |].
  destruct (proj1 (proj2 (X3_the_error_is_printed (broken 40) after_three)) 2 H)
    as [e [_ He]].
  exists e. exact He.
Defined.

Lemma delete_by_id_absent (k : Z) (rows : list SimpleData.t) :
  select_by_id k rows = None -> delete_by_id k rows = rows.
Proof.
  unfold select_by_id, delete_by_id.
  induction rows as [| r rows IH]; cbn [find filter]; intro H; [reflexivity |].
  destruct (pk_eqb k r); [discriminate |].
  cbn [negb]. rewrite (IH H). reflexivity.
Qed.

Lemma delete_by_id_app (k : Z) (l1 l2 : list SimpleData.t) :
  delete_by_id k (l1 ++ l2) = delete_by_id k l1 ++ delete_by_id k l2.
Proof. unfold delete_by_id. apply filter_app. Qed.

Lemma select_by_id_deleted (k : Z) (rows : list SimpleData.t) :
  select_by_id k (delete_by_id k rows) = None.
Proof. apply select_by_id_none, delete_by_id_gone. Qed.

(** With distinct primary keys, a DELETE takes out one row and leaves the
    others in their order. *)
Lemma delete_by_id_one (k : Z) (rows : list SimpleData.t) :
  NoDup (map SimpleData.id rows) ->
  In (Some k) (map SimpleData.id rows) ->
  exists l1 r l2,
    rows = l1 ++ r :: l2 /\ SimpleData.id r = Some k /\
    delete_by_id k rows = l1 ++ l2.
Proof.
  intros Hnd Hin. apply in_map_iff in Hin. destruct Hin as [r [Hid Hr]].
  destruct (in_split _ _ Hr) as [l1 [l2 Hrows]]. subst rows.
  exists l1, r, l2. split; [reflexivity |]. split; [exact Hid |].
  rewrite map_app in Hnd. cbn [map] in Hnd. rewrite Hid in Hnd.
  pose proof (NoDup_remove_2 _ _ _ Hnd) as Hfresh.
  assert (H1 : select_by_id k l1 = None).
  { apply select_by_id_none. intro H. apply Hfresh, in_or_app. left. exact H. }
  assert (H2 : select_by_id k l2 = None).
  { apply select_by_id_none. intro H. apply Hfresh, in_or_app. right. exact H. }
  rewrite delete_by_id_app, (delete_by_id_absent _ _ H1).
  unfold delete_by_id at 1. cbn [filter].
  apply pk_eqb_true in Hid. rewrite Hid. cbn [negb].
  fold (delete_by_id k l2). rewrite (delete_by_id_absent _ _ H2). reflexivity.
Qed.

Lemma POST_fresh (s : Server) (c : string) (env : Env) (r : DataItem.t) :
  response (POST_api_data (DataItemCreate.mk c) env s) = mkResponse 200 (Item r) ->
  select_by_id (DataItem.id r) (simple_data s) = None.
Proof.
  intro Hresp.
  destruct (POST_cases s c env) as [[Hins Heq] | [_ [seq' [line [Heq _]]]]];
    rewrite Heq in Hresp; cbn [response] in Hresp; [| discriminate].
  inversion Hresp; subst r. cbn [created DataItem.id].
  unfold insertable in Hins. rewrite !andb_true_iff in Hins.
  destruct Hins as [_ Hfresh].
  destruct (select_by_id (simple_data_id_seq s + 1) (simple_data s));
    [discriminate | reflexivity].
Qed.

(** X4: a create answered 200 followed by a delete of the id it answered,
    the delete's commit not failing, leaves the stored set as it was before
    the create: same rows, same order. *)
Theorem X4_create_then_delete (s : Server) (c : string) (env env' : Env)
    (r : DataItem.t) :
  response (POST_api_data (DataItemCreate.mk c) env s) = mkResponse 200 (Item r) ->
  fault env' = NoFault ->
  response (DELETE_api_data (DataItem.id r) env' (posted s c env)) =
    mkResponse 200 (MessageBody (deleted_message (DataItem.id r))) /\
  simple_data (server (DELETE_api_data (DataItem.id r) env' (posted s c env))) =
    simple_data s.
Proof.
  intros Hresp Hf.
  pose proof (POST_fresh _ _ _ _ Hresp) as Hfresh.
  destruct (POST_created _ _ _ _ Hresp) as [_ Hsrv].
  assert (Hsel : select_by_id (DataItem.id r) (simple_data (posted s c env)) =
                 Some (to_row r)).
  { unfold posted. rewrite Hsrv. cbn [simple_data].
    apply find_app_fresh; [exact Hfresh | reflexivity]. }
  rewrite (DELETE_committed _ _ _ _ Hsel Hf). cbn [response server simple_data].
  split; [reflexivity |].
  unfold posted. rewrite Hsrv. cbn [simple_data].
  rewrite delete_by_id_app, (delete_by_id_absent _ _ Hfresh).
  unfold delete_by_id. cbn [filter pk_eqb to_row SimpleData.id].
  rewrite Z.eqb_refl. cbn [negb]. apply app_nil_r.
Qed.

Lemma X4_witness :
  simple_data (server (DELETE_api_data 4 (quiet 50) (posted after_three "hello" (quiet 40)))) =
  simple_data after_three.
Proof.
  exact (proj2 (X4_create_then_delete after_three "hello" (quiet 40) (quiet 50)
                  (DataItem.mk 4 "hello" 40) eq_refl eq_refl)).
Defined.

(** X5: a delete is answered 200 at most once for an id. After a delete
    whose commit went through, a second delete of the same id, in any
    environment, is answered 404 and changes nothing. *)
Theorem X5_second_delete_is_404 (s : Server) (item_id : Z) (env env' : Env) :
  In Commit (session_events (DELETE_api_data item_id env s)) ->
  DELETE_api_data item_id env' (server (DELETE_api_data item_id env s)) =
  mkOutcome (mkResponse 404 (DetailBody not_found))
    (server (DELETE_api_data item_id env s)) [Query; Close].
Proof.
  intro Hcommit. apply DELETE_absent.
  destruct (DELETE_cases item_id env s)
    as [[_ Heq] | [[_ [_ Heq]] | [_ [_ [line Heq]]]]];
    rewrite Heq in *; cbn [session_events server simple_data] in *.
  - no_event Hcommit.
  - apply select_by_id_deleted.
  - no_event Hcommit.
Qed.

Lemma X5_witness :
  In Commit (session_events (DELETE_api_data 2 (quiet 40) after_three)) /\
  response (DELETE_api_data 2 (broken 50) (server (DELETE_api_data 2 (quiet 40) after_three))) =
    mkResponse 404 (DetailBody not_found).
Proof.
  assert (H : In Commit (session_events (DELETE_api_data 2 (quiet 40) after_three)))
    by (vm_compute; auto).
  split; [exact H |].
  rewrite (X5_second_delete_is_404 after_three 2 (quiet 40) (broken 50) H).
  reflexivity.
Defined.

(** X6: in a state the routes can reach, a delete whose commit goes
    through takes exactly one row out of the table, the one with the id,
    and leaves the other rows in their order. *)
Theorem X6_delete_removes_one_row (s : Server) (item_id : Z) (env : Env) :
  reachable s ->
  In Commit (session_events (DELETE_api_data item_id env s)) ->
  exists l1 r l2,
    simple_data s = l1 ++ r :: l2 /\
    SimpleData.id r = Some item_id /\
    simple_data (server (DELETE_api_data item_id env s)) = l1 ++ l2.
Proof.
  intros Hreach Hcommit.
  destruct (reachable_invariant s Hreach) as [_ _ _ Hnd].
  destruct (DELETE_cases item_id env s)
    as [[_ Heq] | [[Hsel [_ Heq]] | [_ [_ [line Heq]]]]];
    rewrite Heq in *; cbn [session_events server simple_data] in *.
  - no_event Hcommit.
  - apply delete_by_id_one; [exact Hnd |].
    destruct (select_by_id_present _ _ Hsel) as [r Hr].
    destruct (select_by_id_some _ _ _ Hr) as [Hin Hid].
    rewrite <- Hid. apply in_map. exact Hin.
  - no_event Hcommit.
Qed.

Lemma X6_witness :
  reachable after_three /\
  exists l1 r l2,
    simple_data after_three = l1 ++ r :: l2 /\
    SimpleData.id r = Some 2 /\
    simple_data (server (DELETE_api_data 2 (quiet 40) after_three)) = l1 ++ l2.
Proof.
  split; [exact reachable_after_three |].
  apply (X6_delete_removes_one_row after_three 2 (quiet 40) reachable_after_three).
  vm_compute. auto.
Defined.

(** *** Sequences of requests *)

Lemma handle_sequence (rq : Request) (env : Env) (s : Server) :
  simple_data_id_seq s <= simple_data_id_seq (server (handle rq env s)).
Proof.
  destruct rq as [[c] | skip limit | item_id]; cbn [handle].
  - destruct (POST_cases s c env) as [[_ Heq] | [_ [seq' [line [Heq Hle]]]]];
      rewrite Heq; cbn [server simple_data_id_seq]; lia.
  - destruct (GET_server skip limit env s) as [Heq _]. rewrite Heq. lia.
  - destruct (DELETE_cases item_id env s)
      as [[_ Heq] | [[_ [_ Heq]] | [_ [_ [line Heq]]]]];
      rewrite Heq; cbn [server simple_data_id_seq]; lia.
Qed.

Lemma serve_sequence (rqs : list (Request * Env)) (s : Server) :
  simple_data_id_seq s <= simple_data_id_seq (serve rqs s).
Proof.
  revert s. induction rqs as [| [rq env] rqs IH]; intro s; cbn [serve]; [lia |].
  pose proof (handle_sequence rq env s). specialize (IH (server (handle rq env s))).
  lia.
Qed.

Lemma reachable_handle (rq : Request) (env : Env) (s : Server) :
  reachable s -> reachable (server (handle rq env s)).
Proof.
  intro H. destruct rq; cbn [handle].
  - apply reach_POST, H.
  - apply reach_GET, H.
  - apply reach_DELETE, H.
Qed.

Lemma reachable_serve (rqs : list (Request * Env)) (s : Server) :
  reachable s -> reachable (serve rqs s).
Proof.
  revert s. induction rqs as [| [rq env] rqs IH]; intros s H; cbn [serve];
    [exact H | apply IH, reachable_handle, H].
Qed.

(** A row of the table after a request was a row before it, or it is the
    row of a create, with the next value of the sequence. *)
Lemma handle_rows (rq : Request) (env : Env) (s : Server) (r : SimpleData.t) :
  In r (simple_data (server (handle rq env s))) ->
  In r (simple_data s) \/ SimpleData.id r = Some (simple_data_id_seq s + 1).
Proof.
  destruct rq as [[c] | skip limit | item_id]; cbn [handle].
  - destruct (POST_cases s c env) as [[_ Heq] | [_ [seq' [line [Heq Hle]]]]];
      rewrite Heq; cbn [server simple_data]; [| auto].
    intro Hin. apply in_app_or in Hin. destruct Hin as [Hin | [Hin | []]]; [auto |].
    right. subst r. reflexivity.
  - destruct (GET_server skip limit env s) as [Heq _]. rewrite Heq. auto.
  - destruct (DELETE_cases item_id env s)
      as [[_ Heq] | [[_ [_ Heq]] | [_ [_ [line Heq]]]]];
      rewrite Heq; cbn [server simple_data]; auto.
    intro Hin. left. unfold delete_by_id in Hin. apply filter_In in Hin. tauto.
Qed.

Lemma serve_rows (rqs : list (Request * Env)) (s : Server) (r : SimpleData.t) :
  In r (simple_data (serve rqs s)) ->
  In r (simple_data s) \/
  exists i, SimpleData.id r = Some i /\ simple_data_id_seq s < i.
Proof.
  revert s. induction rqs as [| [rq env] rqs IH]; intros s Hin; cbn [serve] in Hin;
    [auto |].
  destruct (IH _ Hin) as [Hprev | [i [Hid Hlt]]].
  - destruct (handle_rows _ _ _ _ Hprev) as [Hold | Hnew]; [auto |].
    right. exists (simple_data_id_seq s + 1). split; [exact Hnew | lia].
  - right. exists i. split; [exact Hid |].
    pose proof (handle_sequence rq env s). lia.
Qed.

(** X7: an id is never given twice. From a state the routes can reach,
    after any sequence of requests (deletes and failed creates included), a
    create answered 200 answers an id above the sequence value of the first
    state, so an id that no record stored then had or had had. *)
Theorem X7_ids_are_not_reused (s : Server) (rqs : list (Request * Env))
    (c : string) (env : Env) (r : DataItem.t) :
  reachable s ->
  response (POST_api_data (DataItemCreate.mk c) env (serve rqs s)) =
    mkResponse 200 (Item r) ->
  simple_data_id_seq s < DataItem.id r /\
  ~ In (Some (DataItem.id r)) (map SimpleData.id (simple_data s)).
Proof.
  intros Hreach Hresp.
  destruct (POST_created _ _ _ _ Hresp) as [Hr _].
  assert (Hlt : simple_data_id_seq s < DataItem.id r).
  { subst r. cbn [created DataItem.id]. pose proof (serve_sequence rqs s). lia. }
  split; [exact Hlt |].
  destruct (reachable_invariant s Hreach) as [_ _ Hids _].
  intro Hin. apply in_map_iff in Hin. destruct Hin as [row [Hid Hrow]].
  rewrite Forall_forall in Hids. specialize (Hids row Hrow).
  unfold id_in_sequence in Hids. rewrite Hid in Hids. lia.
Qed.

Lemma X7_witness :
  reachable after_three /\
  3 < 5 /\
  ~ In (Some 5) (map SimpleData.id (simple_data after_three)).
Proof.
  split; [exact reachable_after_three |].
  exact (X7_ids_are_not_reused after_three
           [(DELETE 3, quiet 35); (POST hello, broken 36); (DELETE 5, quiet 37)]
           "again" (quiet 40) (DataItem.mk 5 "again" 40)
           reachable_after_three eq_refl).
Defined.

(** X12: in a state the routes can reach, a delete of an id that is zero,
    negative or above the sequence value is answered 404 and changes
    nothing: such an id was never given to a record. *)
Theorem X12_delete_outside_the_sequence (s : Server) (item_id : Z) (env : Env) :
  reachable s ->
  item_id <= 0 \/ simple_data_id_seq s < item_id ->
  DELETE_api_data item_id env s =
  mkOutcome (mkResponse 404 (DetailBody not_found)) s [Query; Close].
Proof.
  intros Hreach Hout. apply DELETE_absent, select_by_id_none.
  destruct (reachable_invariant s Hreach) as [_ _ Hids _].
  intro Hin. apply in_map_iff in Hin. destruct Hin as [row [Hid Hrow]].
  rewrite Forall_forall in Hids. specialize (Hids row Hrow).
  unfold id_in_sequence in Hids. rewrite Hid in Hids. lia.
Qed.

Lemma X12_witness :
  reachable after_three /\
  response (DELETE_api_data (-1) (quiet 40) after_three) =
    mkResponse 404 (DetailBody not_found).
Proof.
  split; [exact reachable_after_three |].
  rewrite (X12_delete_outside_the_sequence after_three (-1) (quiet 40)
             reachable_after_three).
  - reflexivity.
  - left. intro H. discriminate.
Defined.

(** X14: in every state the routes can reach, the ids of the stored
    records are pairwise distinct, positive and at most the last value of
    the sequence, and every stored record passes the validation of
    [DataItem] (its created_at is set as well). *)
Theorem X14_ids_are_distinct_and_positive (s : Server) :
  reachable s ->
  NoDup (map SimpleData.id (simple_data s)) /\
  (forall r, In r (simple_data s) ->
     exists d, r = to_row d /\ 0 < DataItem.id d <= simple_data_id_seq s).
Proof.
  intro Hreach.
  destruct (reachable_invariant s Hreach) as [Hrec _ Hids Hnd].
  split; [exact Hnd |].
  intros r Hr. unfold stored_records in Hrec. rewrite Forall_forall in Hrec, Hids.
  specialize (Hrec r Hr). specialize (Hids r Hr).
  unfold is_record in Hrec.
  destruct (from_attributes r) as [d|] eqn:Hd; [| elim Hrec; reflexivity].
  apply from_attributes_inv in Hd. subst r.
  exists d. split; [reflexivity | exact Hids].
Qed.

Lemma X14_witness :
  reachable after_three /\ NoDup (map SimpleData.id (simple_data after_three)).
Proof.
  split; [exact reachable_after_three |].
  exact (proj1 (X14_ids_are_distinct_and_positive after_three reachable_after_three)).
Defined.

(** X16: no route updates a record. From a state the routes can reach,
    after any sequence of requests, a stored row whose id was in use in the
    first state is, field for field, the row that had that id then. *)
Theorem X16_records_are_never_updated (s : Server) (rqs : list (Request * Env))
    (r : SimpleData.t) :
  reachable s ->
  In r (simple_data (serve rqs s)) ->
  In (SimpleData.id r) (map SimpleData.id (simple_data s)) ->
  In r (simple_data s).
Proof.
  intros Hreach Hr Hid.
  destruct (serve_rows _ _ _ Hr) as [Hold | [i [Hi Hlt]]]; [exact Hold |].
  destruct (reachable_invariant s Hreach) as [_ _ Hids _].
  apply in_map_iff in Hid. destruct Hid as [row [Hrowid Hrow]].
  rewrite Forall_forall in Hids. specialize (Hids row Hrow).
  unfold id_in_sequence in Hids. rewrite Hrowid, Hi in Hids. lia.
Qed.

Lemma X16_witness :
  reachable after_three /\
  In (SimpleData.mk (Some 1) (Some "a") (Some 10)) (simple_data after_three).
Proof.
  split; [exact reachable_after_three |].
  apply (X16_records_are_never_updated after_three
           [(DELETE 2, quiet 35); (POST hello, quiet 36); (GET None None, quiet 37)]
           (SimpleData.mk (Some 1) (Some "a") (Some 10)) reachable_after_three).
  - vm_compute. auto.
  - vm_compute. auto.
Defined.

(** *** Listings *)

Lemma check_offset_limit_accepts (offset count : Z) :
  check_offset_limit offset count = None ->
  0 <= offset <= INT8_MAX /\ 0 <= count <= INT8_MAX.
Proof.
  unfold check_offset_limit.
  destruct (Z.ltb_spec INT8_MAX offset); [discriminate |].
  destruct (Z.ltb_spec INT8_MAX count); [discriminate |]. cbn [orb].
  destruct (Z.ltb_spec offset 0); [discriminate |].
  destruct (Z.ltb_spec count 0); [discriminate |].
  intros _. lia.
Qed.

(** What a listing answered 200 says of the request and of its records. *)
Lemma GET_answered (skip limit : option Z) (env : Env) (s : Server)
    (ds : list DataItem.t) :
  response (GET_api_data skip limit env s) = mkResponse 200 (Items ds) ->
  (0 <= param 0 skip <= INT8_MAX /\ 0 <= param 100 limit <= INT8_MAX) /\
  map to_row ds = selected skip limit s.
Proof.
  intro Hresp.
  destruct (check_offset_limit (param 0 skip) (param 100 limit)) as [e|] eqn:Hchk.
  - rewrite (GET_refused _ _ _ _ _ Hchk) in Hresp. discriminate.
  - rewrite (GET_accepted _ _ _ _ Hchk) in Hresp. cbn [response] in Hresp.
    destruct (validate_list (selected skip limit s)) as [ds'|] eqn:Hv;
      [| discriminate].
    inversion Hresp; subst ds'.
    split; [apply check_offset_limit_accepts, Hchk |].
    symmetry. apply validate_list_inv, Hv.
Qed.

Lemma map_to_row_inj (ds ds' : list DataItem.t) :
  map to_row ds = map to_row ds' -> ds = ds'.
Proof.
  revert ds'. induction ds as [| d ds IH]; intros [| d' ds'] H;
    try discriminate; [reflexivity |].
  cbn [map] in H.
  destruct (map_to_row_cons (d' :: ds') d (map to_row ds) (eq_sym H))
    as [ds'' [Hcons Hrest]].
  inversion Hcons; subst. rewrite (IH _ (eq_sym Hrest)). reflexivity.
Qed.

Lemma firstn_then_more {A} (a b : nat) (l : list A) :
  firstn a l ++ firstn b (skipn a l) = firstn (a + b) l.
Proof.
  revert l. induction a as [| a IH]; intro l; [reflexivity |].
  destruct l as [| x l]; cbn [firstn skipn Nat.add app].
  - rewrite firstn_nil. reflexivity.
  - rewrite IH. reflexivity.
Qed.

Lemma fetch_tile (offset c1 c2 : Z) (rows : list SimpleData.t) :
  0 <= offset -> 0 <= c1 -> 0 <= c2 ->
  fetch offset c1 rows ++ fetch (offset + c1) c2 rows = fetch offset (c1 + c2) rows.
Proof.
  intros Ho H1 H2. rewrite !fetch_spec by lia.
  replace (Z.to_nat (offset + c1)) with (Z.to_nat c1 + Z.to_nat offset)%nat by lia.
  rewrite <- skipn_skipn.
  replace (Z.to_nat (c1 + c2)) with (Z.to_nat c1 + Z.to_nat c2)%nat by lia.
  apply firstn_then_more.
Qed.

(** X8: pages tile the listing when no two stored rows have the same
    created_at. On one such state, the page of [l1] records after [skip],
    followed by the page of [l2] records after [skip + l1], is the page of
    [l1 + l2] records after [skip]: no record between two consecutive pages
    is lost or answered twice. (Among rows of one created_at each
    statement has the order the store gives it, and pages need not
    tile.) *)
Theorem X8_pages_tile (s : Server) (skip l1 l2 : Z) (env1 env2 env : Env)
    (ds1 ds2 ds : list DataItem.t) :
  distinct_created_at s ->
  response (GET_api_data (Some skip) (Some l1) env1 s) = mkResponse 200 (Items ds1) ->
  response (GET_api_data (Some (skip + l1)) (Some l2) env2 s) =
    mkResponse 200 (Items ds2) ->
  response (GET_api_data (Some skip) (Some (l1 + l2)) env s) =
    mkResponse 200 (Items ds) ->
  ds = ds1 ++ ds2.
Proof.
  intros _ H1 H2 H.
  destruct (GET_answered _ _ _ _ _ H1) as [[Hs Hl1] Hm1].
  destruct (GET_answered _ _ _ _ _ H2) as [[_ Hl2] Hm2].
  destruct (GET_answered _ _ _ _ _ H) as [_ Hm].
  cbn [param] in *. unfold selected in *. cbn [param] in *.
  apply map_to_row_inj. rewrite map_app, Hm, Hm1, Hm2.
  symmetry. apply fetch_tile; lia.
Qed.

Lemma X8_witness :
  distinct_created_at after_three /\
  [DataItem.mk 3 "c" 30; DataItem.mk 2 "b" 20; DataItem.mk 1 "a" 10] =
  [DataItem.mk 3 "c" 30] ++ [DataItem.mk 2 "b" 20; DataItem.mk 1 "a" 10].
Proof.
  assert (Hdistinct : distinct_created_at after_three).
  { unfold distinct_created_at. vm_compute.
    repeat (constructor; [intro H; repeat (destruct H as [H | H]; [discriminate |]);
                          destruct H |]).
    constructor. }
  split; [exact Hdistinct |].
  exact (X8_pages_tile after_three 0 1 2 (quiet 40) (quiet 41) (quiet 42)
           [DataItem.mk 3 "c" 30] [DataItem.mk 2 "b" 20; DataItem.mk 1 "a" 10]
           [DataItem.mk 3 "c" 30; DataItem.mk 2 "b" 20; DataItem.mk 1 "a" 10]
           Hdistinct eq_refl eq_refl eq_refl).
Defined.

(** X9: the number of records a listing answers. On a table of records,
    for skip and limit the store accepts, it is the smaller of limit and of
    what is left of the table after skip records (nothing when skip is the
    number of stored records or more). *)
Theorem X9_size_of_a_listing (s : Server) (skip limit : option Z) (env : Env) :
  stored_records s ->
  0 <= param 0 skip <= INT8_MAX -> 0 <= param 100 limit <= INT8_MAX ->
  exists ds,
    response (GET_api_data skip limit env s) = mkResponse 200 (Items ds) /\
    Z.of_nat (List.length ds) =
      Z.min (param 100 limit)
            (Z.max 0 (Z.of_nat (List.length (simple_data s)) - param 0 skip)).
Proof.
  intros Hrec Hskip Hlimit.
  destruct (GET_records skip limit env s Hrec
              (check_offset_limit_ok _ _ Hskip Hlimit)) as [ds [Heq Hmap]].
  exists ds. rewrite Heq. split; [reflexivity |].
  rewrite <- (length_map to_row), Hmap. unfold selected.
  rewrite fetch_spec by lia.
  rewrite length_firstn, length_skipn.
  rewrite <- (Permutation_length (order_by_perm (simple_data s))).
  lia.
Qed.

Lemma X9_witness :
  stored_records after_three /\
  exists ds,
    response (GET_api_data (Some 2) (Some 5) (quiet 40) after_three) =
      mkResponse 200 (Items ds) /\
    Z.of_nat (List.length ds) = 1.
Proof.
  assert (Hrec : stored_records after_three)
    by (apply reachable_invariant, reachable_after_three).
  split; [exact Hrec |].
  destruct (X9_size_of_a_listing after_three (Some 2) (Some 5) (quiet 40) Hrec)
    as [ds [Hresp Hlen]].
  - split; intro H; discriminate.
  - split; intro H; discriminate.
  - exists ds. split; [exact Hresp | exact Hlen].
Defined.

(** X10: a listing from the start with a limit of at least the number of
    stored records answers every stored record, each once. *)
Theorem X10_a_wide_listing_is_complete (s : Server) (limit : option Z) (env : Env) :
  stored_records s ->
  Z.of_nat (List.length (simple_data s)) <= param 100 limit <= INT8_MAX ->
  exists ds,
    response (GET_api_data None limit env s) = mkResponse 200 (Items ds) /\
    Permutation (simple_data s) (map to_row ds).
Proof.
  intros Hrec Hlimit.
  assert (Hchk : check_offset_limit (param 0 None) (param 100 limit) = None)
    by (apply check_offset_limit_ok;
        [cbn [param]; unfold INT8_MAX; lia | lia]).
  destruct (GET_records None limit env s Hrec Hchk) as [ds [Heq Hmap]].
  exists ds. rewrite Heq. split; [reflexivity |].
  rewrite Hmap. unfold selected. cbn [param]. rewrite fetch_all.
  - apply order_by_perm.
  - rewrite <- (Permutation_length (order_by_perm _)). lia.
Qed.

Lemma X10_witness :
  stored_records after_three /\
  exists ds,
    response (GET_api_data None None (quiet 40) after_three) =
      mkResponse 200 (Items ds) /\
    Permutation (simple_data after_three) (map to_row ds).
Proof.
  assert (Hrec : stored_records after_three)
    by (apply reachable_invariant, reachable_after_three).
  split; [exact Hrec |].
  apply (X10_a_wide_listing_is_complete after_three None (quiet 40) Hrec).
  split; intro H; discriminate.
Defined.

Lemma validate_list_records (rows : list SimpleData.t) (ds : list DataItem.t) :
  validate_list rows = Some ds -> Forall is_record rows.
Proof.
  intro H. apply validate_list_inv in H. subst rows.
  apply Forall_forall. intros r Hr. apply in_map_iff in Hr.
  destruct Hr as [d [Hd _]]. subst r. apply is_record_to_row.
Qed.

(** X11: on a table where no two rows have the same created_at, so that
    skip and limit select one window of the descending order, a listing is
    answered 200 exactly when every row of its window passes the
    validation of [DataItem]. The columns content and created_at are
    nullable: one row of the window without content or without created_at
    turns the whole answer into a 500, and such a row outside the window
    does no harm. *)
Theorem X11_a_listing_needs_records (s : Server) (skip limit : option Z) (env : Env) :
  distinct_created_at s ->
  0 <= param 0 skip <= INT8_MAX -> 0 <= param 100 limit <= INT8_MAX ->
  (Forall is_record (selected skip limit s) ->
   exists ds,
     response (GET_api_data skip limit env s) = mkResponse 200 (Items ds) /\
     map to_row ds = selected skip limit s) /\
  (~ Forall is_record (selected skip limit s) ->
   response (GET_api_data skip limit env s) = internal_server_error).
Proof.
  intros _ Hskip Hlimit.
  rewrite (GET_accepted _ _ env s (check_offset_limit_ok _ _ Hskip Hlimit)).
  cbn [response]. split.
  - intro Hrec. destruct (validate_records _ Hrec) as [ds [Hv Hm]].
    exists ds. rewrite Hv. split; [reflexivity | exact Hm].
  - intro Hbad.
    destruct (validate_list (selected skip limit s)) as [ds|] eqn:Hv;
      [| reflexivity].
    elim Hbad. eapply validate_list_records. exact Hv.
Qed.

Lemma X11_witness :
  distinct_created_at with_null_content /\
  response (GET_api_data None None (quiet 40) with_null_content) =
    internal_server_error /\
  exists ds,
    response (GET_api_data (Some 1) (Some 1) (quiet 40) with_null_content) =
      mkResponse 200 (Items ds).
Proof.
  assert (Hdistinct : distinct_created_at with_null_content).
  { unfold distinct_created_at. vm_compute.
    repeat (constructor; [intro H; repeat (destruct H as [H | H]; [discriminate |]);
                          destruct H |]).
    constructor. }
  split; [exact Hdistinct |].
  destruct (X11_a_listing_needs_records with_null_content None None (quiet 40) Hdistinct)
    as [_ Hbad]; [split; intro H; discriminate | split; intro H; discriminate |].
  destruct (X11_a_listing_needs_records with_null_content (Some 1) (Some 1) (quiet 40)
              Hdistinct)
    as [Hgood _]; [split; intro H; discriminate | split; intro H; discriminate |].
  split.
  - apply Hbad. intro H. vm_compute in H.
    inversion H as [| ? ? Hrow _]. apply Hrow. reflexivity.
  - destruct Hgood as [ds [Hresp _]].
    + unfold is_record. vm_compute. constructor; [discriminate | constructor].
    + exists ds. exact Hresp.
Defined.

Lemma desc_antisym (a b : SimpleData.t) :
  CreatedAtDesc.leb a b = true -> CreatedAtDesc.leb b a = true ->
  SimpleData.created_at a = SimpleData.created_at b.
Proof.
  unfold CreatedAtDesc.leb.
  destruct (SimpleData.created_at a) as [x|], (SimpleData.created_at b) as [y|];
    try discriminate; [| reflexivity].
  rewrite !Z.leb_le. intros H1 H2. f_equal. lia.
Qed.

Lemma NoDup_map_eq {A B} (f : A -> B) (l : list A) (a b : A) :
  NoDup (map f l) -> In a l -> In b l -> f a = f b -> a = b.
Proof.
  induction l as [| x l IH]; cbn [map]; intros Hnd Ha Hb Hf; [destruct Ha |].
  apply NoDup_cons_iff in Hnd. destruct Hnd as [Hx Hnd].
  destruct Ha as [Ha | Ha], Hb as [Hb | Hb]; subst.
  - reflexivity.
  - elim Hx. rewrite Hf. apply in_map, Hb.
  - elim Hx. rewrite <- Hf. apply in_map, Ha.
  - apply IH; assumption.
Qed.

(** Two descending arrangements of the same rows are one when no two rows
    have the same created_at. *)
Lemma descending_order_is_unique (l1 l2 : list SimpleData.t) :
  Permutation l1 l2 ->
  StronglySorted (fun a b => is_true (CreatedAtDesc.leb a b)) l1 ->
  StronglySorted (fun a b => is_true (CreatedAtDesc.leb a b)) l2 ->
  NoDup (map SimpleData.created_at l1) ->
  l1 = l2.
Proof.
  intros Hp Hs1. revert l2 Hp.
  induction Hs1 as [| a t1 Hs1 IH Hall1]; intros l2 Hp Hs2 Hnd.
  - apply Permutation_nil in Hp. subst. reflexivity.
  - destruct l2 as [| b t2].
    { apply Permutation_sym, Permutation_nil in Hp. discriminate. }
    inversion Hs2 as [| ? ? Hs2' Hall2]; subst.
    assert (Hb : In b (a :: t1))
      by (eapply Permutation_in; [apply Permutation_sym, Hp | left; reflexivity]).
    assert (Ha : In a (b :: t2))
      by (eapply Permutation_in; [exact Hp | left; reflexivity]).
    assert (Heq : a = b).
    { destruct Hb as [Hb | Hb]; [exact Hb |].
      destruct Ha as [Ha | Ha]; [symmetry; exact Ha |].
      rewrite Forall_forall in Hall1, Hall2.
      apply (NoDup_map_eq SimpleData.created_at (a :: t1));
        [exact Hnd | left; reflexivity | right; exact Hb |].
      apply desc_antisym; [apply Hall1, Hb | apply Hall2, Ha]. }
    subst b. f_equal. apply IH.
    + eapply Permutation_cons_inv. exact Hp.
    + exact Hs2'.
    + cbn [map] in Hnd. apply NoDup_cons_iff in Hnd. tauto.
Qed.

(** X15: a listing depends on the stored set, not on the order in which
    the table holds its rows, when no two stored rows have the same
    created_at: two tables with the same rows get the same answer to the
    same skip and limit. (Among rows of one created_at the order of a
    listing is the store's choice.) *)
Theorem X15_listing_ignores_the_table_order (s s' : Server) (skip limit : option Z)
    (env env' : Env) :
  Permutation (simple_data s) (simple_data s') ->
  NoDup (map SimpleData.created_at (simple_data s)) ->
  response (GET_api_data skip limit env s) = response (GET_api_data skip limit env' s').
Proof.
  intros Hp Hnd.
  assert (Horder : order_by_created_at_desc (simple_data s) =
                   order_by_created_at_desc (simple_data s')).
  { apply descending_order_is_unique.
    - eapply Permutation_trans; [apply Permutation_sym, order_by_perm |].
      eapply Permutation_trans; [exact Hp | apply order_by_perm].
    - apply order_by_sorted.
    - apply order_by_sorted.
    - eapply Permutation_NoDup; [| exact Hnd].
      apply Permutation_map, order_by_perm. }
  destruct (check_offset_limit (param 0 skip) (param 100 limit)) as [e|] eqn:Hchk.
  - rewrite !(GET_refused _ _ _ _ _ Hchk). reflexivity.
  - rewrite !(GET_accepted _ _ _ _ Hchk). cbn [response].
    unfold selected. rewrite Horder. reflexivity.
Qed.

Lemma X15_witness :
  response (GET_api_data None None (quiet 40) after_three) =
  response (GET_api_data None None (quiet 41)
              (mkServer (rev (simple_data after_three)) 3 [])).
Proof.
  apply X15_listing_ignores_the_table_order.
  - cbn [simple_data]. apply Permutation_rev.
  - vm_compute.
    repeat (constructor; [intro H; repeat (destruct H as [H | H]; [discriminate |]);
                          destruct H |]).
    constructor.
Defined.

(** *** The connection URL *)

Lemma append_inv_head (p a b : string) : (p ++ a = p ++ b)%string -> a = b.
Proof.
  induction p as [| x p IH]; cbn [append]; intro H; [exact H |].
  apply IH. inversion H. reflexivity.
Qed.

(** Two strings cut at the first occurrence of a character that neither
    head holds are cut at the same place. *)
Lemma append_delimiter (c : ascii) (a a' b b' : string) :
  occurs c a = false -> occurs c a' = false ->
  (a ++ String c b = a' ++ String c b')%string ->
  a = a' /\ b = b'.
Proof.
  revert a'. induction a as [| x a IH]; intros [| y a'] Ha Ha' H;
    cbn [append occurs] in *.
  - inversion H. split; reflexivity.
  - inversion H; subst. rewrite Ascii.eqb_refl in Ha'. discriminate.
  - inversion H; subst. rewrite Ascii.eqb_refl in Ha. discriminate.
  - apply orb_false_iff in Ha. apply orb_false_iff in Ha'.
    inversion H; subst.
    destruct (IH a' (proj2 Ha) (proj2 Ha') H2) as [Heq Hb].
    subst. split; reflexivity.
Qed.

(** X13: the connection URL determines the configuration when no value
    holds the character that ends it in the URL (the user no colon, the
    password no at sign, the host no colon, the port no slash): two such
    configurations with the same URL are the same. The values are pasted
    in unescaped, and without that condition two configurations can share
    a URL. *)
Theorem X13_the_URL_determines_the_configuration :
  (forall c c',
     delimited c = true -> delimited c' = true ->
     DATABASE_URL c = DATABASE_URL c' -> c = c') /\
  (exists c c', c <> c' /\ DATABASE_URL c = DATABASE_URL c').
Proof.
  split.
  - intros [u p h t n] [u' p' h' t' n'] Hc Hc' Hurl.
    unfold delimited in Hc, Hc'. cbn [DB_USER DB_PASSWORD DB_HOST DB_PORT] in Hc, Hc'.
    rewrite !andb_true_iff, !negb_true_iff in Hc, Hc'.
    destruct Hc as [[[Hu Hp] Hh] Ht]. destruct Hc' as [[[Hu' Hp'] Hh'] Ht'].
    unfold DATABASE_URL in Hurl.
    cbn [DB_USER DB_PASSWORD DB_HOST DB_PORT DB_NAME] in Hurl.
    apply append_inv_head in Hurl.
    change (":" ++ ?x)%string with (String ":" x) in Hurl.
    destruct (append_delimiter _ _ _ _ _ Hu Hu' Hurl) as [-> Hurl1].
    change ("@" ++ ?x)%string with (String "@" x) in Hurl1.
    destruct (append_delimiter _ _ _ _ _ Hp Hp' Hurl1) as [-> Hurl2].
    change (":" ++ ?x)%string with (String ":" x) in Hurl2.
    destruct (append_delimiter _ _ _ _ _ Hh Hh' Hurl2) as [-> Hurl3].
    change ("/" ++ ?x)%string with (String "/" x) in Hurl3.
    destruct (append_delimiter _ _ _ _ _ Ht Ht' Hurl3) as [-> ->].
    reflexivity.
  - exists (mkConfig "app" "p@ss" "db" "5432" "newdb"),
           (mkConfig "app" "p" "ss@db" "5432" "newdb").
    split; [discriminate | reflexivity].
Qed.

Lemma X13_witness :
  delimited (config host_set) = true /\
  config (fun _ => None) = config host_set.
Proof.
  split; [reflexivity |].
  exact (proj1 X13_the_URL_determines_the_configuration
           (config (fun _ => None)) (config host_set) eq_refl eq_refl eq_refl).
Defined.

(** *** Counting the stored records *)

Lemma handle_count (rq : Request) (env : Env) (s : Server) :
  reachable s ->
  Z.of_nat (List.length (simple_data (server (handle rq env s)))) =
  Z.of_nat (List.length (simple_data s)) + net_change rq (response (handle rq env s)).
Proof.
  intro Hreach. destruct rq as [[c] | skip limit | item_id]; cbn [handle net_change].
  - destruct (POST_cases s c env) as [[_ Heq] | [_ [seq' [line [Heq _]]]]];
      rewrite Heq; cbn [server response simple_data status Z.eqb Pos.eqb].
    + rewrite length_app. cbn [List.length]. lia.
    + lia.
  - destruct (GET_server skip limit env s) as [Heq _]. rewrite Heq. lia.
  - destruct (reachable_invariant s Hreach) as [_ _ _ Hnd].
    destruct (DELETE_cases item_id env s)
      as [[_ Heq] | [[Hsel [_ Heq]] | [_ [_ [line Heq]]]]];
      rewrite Heq; cbn [server response simple_data status Z.eqb Pos.eqb];
      try lia.
    destruct (select_by_id_present _ _ Hsel) as [r Hr].
    destruct (select_by_id_some _ _ _ Hr) as [Hin Hid].
    destruct (delete_by_id_one item_id (simple_data s) Hnd) as [l1 [r' [l2 [Hs [_ Hd]]]]].
    { rewrite <- Hid. apply in_map. exact Hin. }
    rewrite Hd, Hs, !length_app. cbn [List.length]. lia.
Qed.

(** X17: the stored records are accounted for by the answers. From a
    state the routes can reach, after any sequence of requests, the number
    of stored records is the number before, plus the creates answered 200,
    minus the deletes answered 200; a listing, a 404 and a 500 count for
    nothing. *)
Theorem X17_records_are_accounted_for (s : Server) (rqs : list (Request * Env)) :
  reachable s ->
  Z.of_nat (List.length (simple_data (serve rqs s))) =
  Z.of_nat (List.length (simple_data s)) + tally rqs s.
Proof.
  revert s. induction rqs as [| [rq env] rqs IH]; intros s Hreach;
    cbn [serve tally]; [lia |].
  rewrite (IH _ (reachable_handle rq env s Hreach)).
  rewrite (handle_count rq env s Hreach). lia.
Qed.

Lemma X17_witness :
  reachable after_three /\
  Z.of_nat (List.length (simple_data
     (serve [(DELETE 2, quiet 35); (DELETE 2, quiet 36); (POST hello, broken 37);
             (POST hello, quiet 38); (GET None None, quiet 39)] after_three))) =
  3 + (-1 + (0 + (0 + (1 + (0 + 0))))).
Proof.
  split; [exact reachable_after_three |].
  exact (X17_records_are_accounted_for after_three
           [(DELETE 2, quiet 35); (DELETE 2, quiet 36); (POST hello, broken 37);
            (POST hello, quiet 38); (GET None None, quiet 39)]
           reachable_after_three).
Defined.
